(** * Rear-end collision detection over a recorded vehicle trace

    A shallow embedding of [sql2collisions.py]: the coordinate transformer,
    the lane lookup, the proximity helper, the following predicate, the
    snapshot of two instants and the detection loop of [main].

    Numbers.  In the lookups, the snapshot and the loops, Python floats are
    modelled as exact rationals ([Q]): sums, differences and products are
    the exact ones, and the properties stated there are those that do not
    turn on a rounding.  [Point.distance] is a square root, which [Q] does
    not have; the model keeps the squared distance in [Q], gives the
    distance itself in [R], and decides every comparison of distances on
    the squares (the lemmas [Qltb_distance], [Qle_bool_distance] and
    [distance_gt_iff] justify this).  The round trip of the coordinate
    transformer does turn on rounding: for it the transformer is given
    twice more, on IEEE doubles ([Float64]) and on rationals with a
    rounding after every operation ([Rounded]).

    shapely.  The program runs on shapely 1.x, whose [STRtree] hands back
    the geometries it was given: [nearest] answers with a geometry at the
    least distance, and [query] with every geometry whose extent meets the
    extent of the query geometry.  What [nearest] does on a tree without
    geometries depends on the release: shapely 1.7 answers [None], which
    the model follows; other releases raise in [nearest] itself.  The
    theorems on the lookups and on the runs hold either way: none of them
    says which exception a network without lanes gives.
    The lookups by [id(...)] of the program find the record a geometry
    belongs to; the model keeps the record with the geometry, which is the
    same as long as no two records share one geometry object, as is the
    case for the objects [NetReader] and [Snapshot] build.

    sqlite.  The table [results] is the list of its rows; the table
    [collisions] is the state of [main], a list of rows with the primary
    key (leader, follower, seconds). *)

From Stdlib Require Import PrimFloat FloatOps SpecFloat.
From Stdlib Require Import QArith Qabs Qminmax Qround Qpower Qreals Reals Lra Lqa ZArith Sorted.
From stdpp Require Import gmap strings list fin_maps.

Open Scope Q_scope.

(** ** shapely points *)

Record Point := mkPoint { px : Q; py : Q }.

Definition sq (x : Q) : Q := x * x.

(** The square of [a.distance(b)]. *)
Definition distance2 (a b : Point) : Q :=
  sq (px a - px b) + sq (py a - py b).

(** [a.distance(b)], the Euclidean distance. *)
Definition distance (a b : Point) : R := sqrt (Q2R (distance2 a b)).

Definition Qltb (x y : Q) : bool := negb (Qle_bool y x).

(** ** class CoordTransformer *)

Record CoordTransformer := mkCoordTransformer {
  _dimensions : Point;
  _topleft : Point;
  _bottomright : Point;
  _margin : Q
}.

(** [CoordTransformer.__init__] *)
Definition CoordTransformer_init (topleft bottomright : Point) (margin : Q)
  : CoordTransformer :=
  {| _dimensions := mkPoint (px bottomright - px topleft)
                            (py bottomright - py topleft);
     _topleft := topleft;
     _bottomright := bottomright;
     _margin := margin |}.

Definition omnet2traci (self : CoordTransformer) (p : Point) : Point :=
  mkPoint (px p + px (_topleft self) - _margin self)
          (py (_dimensions self) - (py p - py (_topleft self)) + _margin self).

Definition traci2omnet (self : CoordTransformer) (p : Point) : Point :=
  mkPoint (px p - px (_topleft self) + _margin self)
          (py (_dimensions self) - (py p - py (_topleft self)) + _margin self).

(** ** CoordTransformer on doubles

    The same class on IEEE 754 binary64 numbers, the floats of Python:
    every sum and every difference is rounded to the nearest double. *)
Module Float64.

Record Point := mkPoint { px : float; py : float }.

Record CoordTransformer := mkCoordTransformer {
  _dimensions : Point;
  _topleft : Point;
  _bottomright : Point;
  _margin : float
}.

Definition CoordTransformer_init (topleft bottomright : Point) (margin : float)
  : CoordTransformer :=
  {| _dimensions := mkPoint (px bottomright - px topleft)%float
                            (py bottomright - py topleft)%float;
     _topleft := topleft;
     _bottomright := bottomright;
     _margin := margin |}.

Definition omnet2traci (self : CoordTransformer) (p : Point) : Point :=
  mkPoint (px p + px (_topleft self) - _margin self)%float
          (py (_dimensions self) - (py p - py (_topleft self))
           + _margin self)%float.

Definition traci2omnet (self : CoordTransformer) (p : Point) : Point :=
  mkPoint (px p - px (_topleft self) + _margin self)%float
          (py (_dimensions self) - (py p - py (_topleft self))
           + _margin self)%float.

(** [abs(a - b) <= tolerance] *)
Definition within (tolerance a b : float) : bool :=
  (abs (a - b) <=? tolerance)%float.

(** The double nearest to [1e-9]. *)
Definition tolerance : float := 0x1.12e0be826d695p-30%float.

(** The number a double stands for; nothing for an infinity or a NaN. *)
Definition to_Q (f : float) : option Q :=
  match Prim2SF f with
  | S754_zero _ => Some 0
  | S754_finite s m e =>
      Some ((if s then -1 else 1) * inject_Z (Z.pos m) * 2 ^ e)
  | _ => None
  end.

End Float64.

(** ** CoordTransformer with rounding

    The same class once more, on rationals, with [rnd] applied to the
    result of every sum and every difference, in the order Python
    evaluates them. *)
Module Rounded.

Section WithRounding.

Variable rnd : Q -> Q.

Definition CoordTransformer_init (topleft bottomright : Point) (margin : Q)
  : CoordTransformer :=
  {| _dimensions := mkPoint (rnd (px bottomright - px topleft))
                            (rnd (py bottomright - py topleft));
     _topleft := topleft;
     _bottomright := bottomright;
     _margin := margin |}.

Definition omnet2traci (self : CoordTransformer) (p : Point) : Point :=
  mkPoint (rnd (rnd (px p + px (_topleft self)) - _margin self))
          (rnd (rnd (py (_dimensions self) - rnd (py p - py (_topleft self)))
                + _margin self)).

Definition traci2omnet (self : CoordTransformer) (p : Point) : Point :=
  mkPoint (rnd (rnd (px p - px (_topleft self)) + _margin self))
          (rnd (rnd (py (_dimensions self) - rnd (py p - py (_topleft self)))
                + _margin self)).

End WithRounding.

End Rounded.

(** The unit roundoff of binary64, [2^-53]. *)
Definition unit_roundoff : Q := 1 # 9007199254740992.

(** [rnd] rounds as IEEE arithmetic rounds a sum or a difference to the
    nearest double: the result is off by at most the unit roundoff times
    the exact value.  (A sum or difference of doubles too small for this
    is a double itself; one too large overflows.) *)
Definition rounds_to_nearest (rnd : Q -> Q) : Prop :=
  forall x : Q, Qabs (rnd x - x) <= unit_roundoff * Qabs x.

Definition tolerance : Q := 1 # 1000000000.

(** Coordinates, corners and margins up to a hundred kilometres. *)
Definition moderate (x : Q) : Prop := Qabs x <= 100000.

(** The integer nearest to [x], the even one of two. *)
Definition round_half_even (x : Q) : Z :=
  let f := Qfloor x in
  match Qcompare (x - inject_Z f) (1 # 2) with
  | Lt => f
  | Gt => (f + 1)%Z
  | Eq => if Z.even f then f else (f + 1)%Z
  end.

(** The exponent [e] of the last of the 53 binary places of [x]:
    [2^52 <= |x| / 2^e < 2^53]. *)
Definition last_place (x : Q) : Z :=
  let e := (Z.log2 (Z.abs (Qnum x)) - Z.log2 (Z.pos (Qden x)) - 52)%Z in
  if Qle_bool (2 ^ 52) (Qabs x / 2 ^ e) then e else (e - 1)%Z.

(** Rounding to the nearest number of 53 binary places, the even one of
    two: the rounding of binary64 where the result neither overflows nor
    falls below the normal range. *)
Definition round53 (x : Q) : Q :=
  if Qeq_bool x 0 then 0
  else inject_Z (round_half_even (x / 2 ^ last_place x)) * 2 ^ last_place x.

Definition Point_of_doubles (p : Float64.Point) : option Point :=
  match Float64.to_Q (Float64.px p), Float64.to_Q (Float64.py p) with
  | Some x, Some y => Some (mkPoint x y)
  | _, _ => None
  end.

(** The round trip of [p] on doubles and the round trip of the same point
    rounded by [round53] end at the same point. *)
Definition roundtrips_agree (topleft bottomright : Float64.Point)
    (margin : float) (p : Float64.Point) : bool :=
  let xf := Float64.CoordTransformer_init topleft bottomright margin in
  match Point_of_doubles topleft, Point_of_doubles bottomright,
        Float64.to_Q margin, Point_of_doubles p,
        Point_of_doubles (Float64.traci2omnet xf (Float64.omnet2traci xf p)) with
  | Some topleft', Some bottomright', Some margin', Some p', Some q =>
      let xf' := Rounded.CoordTransformer_init round53 topleft' bottomright'
                   margin' in
      let q' := Rounded.traci2omnet round53 xf'
                  (Rounded.omnet2traci round53 xf' p') in
      Qeq_bool (px q) (px q') && Qeq_bool (py q) (py q')
  | _, _, _, _, _ => false
  end.

(** ** is_following *)

(** [(up.distance(vc) > up.distance(vp)) and (uc.distance(vc) <= up.distance(vp))] *)
Definition is_following (up uc vp vc : Point) : bool :=
  Qltb (distance2 up vp) (distance2 up vc)
  && Qle_bool (distance2 uc vc) (distance2 up vp).

(** ** Lanes of the network file *)

(** A [LineString] of the network file: [NetReader] builds it from the
    points of the lane's [shape], and shapely refuses fewer than two. *)
Record LineString := mkLineString {
  ls_first : Point;
  ls_second : Point;
  ls_rest : list Point
}.

Definition coords (ls : LineString) : list Point :=
  ls_first ls :: ls_second ls :: ls_rest ls.

(** One entry of [NetReader._data] (the keys [index], [speed], [length] and
    [points] carry the prefix [lane_] here). *)
Record Lane := mkLane {
  edge_id : option string;
  lane_id : string;
  lane_index : Z;
  lane_speed : Q;
  lane_length : Q;
  lane_points : LineString
}.

Definition clamp01 (t : Q) : Q := Qmax 0 (Qmin 1 t).

(** Squared distance from [p] to the segment from [a] to [b]: the distance
    to the point of the segment closest to [p]. *)
Definition segment_distance2 (p a b : Point) : Q :=
  let len2 := distance2 a b in
  if Qeq_bool len2 0 then distance2 p a
  else
    let t := clamp01 (((px p - px a) * (px b - px a)
                       + (py p - py a) * (py b - py a)) / len2) in
    distance2 p (mkPoint (px a + t * (px b - px a)) (py a + t * (py b - py a))).

Fixpoint path_distance2 (p a : Point) (rest : list Point) (best : Q) : Q :=
  match rest with
  | [] => best
  | b :: rest' => path_distance2 p b rest' (Qmin best (segment_distance2 p a b))
  end.

(** The square of [line.distance(p)]: the least distance to a segment. *)
Definition linestring_distance2 (ls : LineString) (p : Point) : Q :=
  path_distance2 p (ls_second ls) (ls_rest ls)
    (segment_distance2 p (ls_first ls) (ls_second ls)).

Definition linestring_distance (ls : LineString) (p : Point) : R :=
  sqrt (Q2R (linestring_distance2 ls p)).

(** [sqrt d2 > threshold], decided on the square. *)
Definition distance_gt (d2 threshold : Q) : bool :=
  Qltb threshold 0 || Qltb (sq threshold) d2.

(** ** Points of a line string *)

(** [p] is a point of the segment from [a] to [b]. *)
Definition on_segment (p a b : Point) : Prop :=
  exists t : Q, 0 <= t /\ t <= 1
    /\ px p == px a + t * (px b - px a)
    /\ py p == py a + t * (py b - py a).

Definition segments (ls : LineString) : list (Point * Point) :=
  zip (coords ls) (tail (coords ls)).

(** [p] is a point of the polyline [ls]. *)
Definition on_linestring (ls : LineString) (p : Point) : Prop :=
  exists a b : Point, (a, b) ∈ segments ls /\ on_segment p a b.

(** ** Exceptions *)

Inductive Exception := ValueError | AttributeError | TypeError.

Inductive result (A : Type) :=
| Ok (a : A)
| Raise (e : Exception).
Arguments Ok {A} a.
Arguments Raise {A} e.

(** ** class EdgeLookup *)

(** [_edge_rtree] holds the line strings of [_lanes], and [_lane_lookup]
    gives back the lane of a line string by the line string's identity:
    the two together are a search over [_lanes]. *)
Record EdgeLookup := mkEdgeLookup {
  _lanes : list Lane;
  _xformer : CoordTransformer
}.

(** [EdgeLookup.__init__], from the lanes [NetReader] read in the network
    file. *)
Definition EdgeLookup_init (netfile : list Lane) (xformer : CoordTransformer)
  : EdgeLookup :=
  {| _lanes := netfile; _xformer := xformer |}.

Fixpoint nearest_from (p : Point) (best : Lane) (lanes : list Lane) : Lane :=
  match lanes with
  | [] => best
  | l :: lanes' =>
      nearest_from p
        (if Qltb (linestring_distance2 (lane_points l) p)
                 (linestring_distance2 (lane_points best) p)
         then l else best) lanes'
  end.

(** [STRtree.nearest]: a lane at the least distance, [None] for an empty
    tree.  Among lanes at the same least distance shapely's answer depends
    on the tree; the model takes the first one of the list. *)
Definition STRtree_nearest (lanes : list Lane) (p : Point) : option Lane :=
  match lanes with
  | [] => None
  | l :: lanes' => Some (nearest_from p l lanes')
  end.

(** [EdgeLookup.find].  For a network without lanes the model follows
    shapely 1.7: [nearest] is [None], and [None.distance] raises
    [AttributeError]. *)
Definition EdgeLookup_find (self : EdgeLookup) (pos : Point) (threshold : Q)
  : result Lane :=
  let traciPos := omnet2traci (_xformer self) pos in
  match STRtree_nearest (_lanes self) traciPos with
  | None => Raise AttributeError
  | Some nearest =>
      if distance_gt (linestring_distance2 (lane_points nearest) traciPos) threshold
      then Raise ValueError
      else Ok nearest
  end.

Definition default_threshold : Q := 1 # 10.

(** ** class ProximityHelper *)

(** [dict(rows)]: a later row replaces an earlier one of the same key. *)
Definition dict_of {V : Type} (rows : list (Z * V)) : gmap Z V :=
  foldl (fun d row => <[row.1 := row.2]> d) ∅ rows.

(** [ProximityHelper.__init__]: the points of [d], each with its thing id
    ([_lookup] goes from a point's identity to the id, [_rtree] holds the
    points). *)
Definition ProximityHelper_init (data : list (Z * Point)) : list (Z * Point) :=
  map_to_list (dict_of data).

(** [STRtree.query(pos.buffer(threshold))] gives the geometries of the tree
    whose extent meets the extent of the query geometry (shapely 1.x).  The
    buffer of a point is empty for a threshold that is not positive, and
    otherwise spans [pos.x - threshold, pos.x + threshold] by
    [pos.y - threshold, pos.y + threshold]. *)
Definition in_buffer_extent (pos : Point) (threshold : Q) (q : Point) : bool :=
  Qltb 0 threshold
  && Qle_bool (Qabs (px q - px pos)) threshold
  && Qle_bool (Qabs (py q - py pos)) threshold.

(** [ProximityHelper.find] *)
Definition ProximityHelper_find (self : list (Z * Point)) (pos : Point)
    (threshold : Q) : list (Z * Point) :=
  List.filter (fun row => in_buffer_extent pos threshold row.2) self.

(** What the comment of [find] and the specification ask for: the things
    within [threshold] of [pos], the boundary included. *)
Definition within_threshold (pos : Point) (threshold : Q) (q : Point) : Prop :=
  (distance pos q <= Q2R threshold)%R.

(** ** The table [results] and class Snapshot *)

Record Row := mkRow {
  node_id : Z;
  run_id : Z;
  seconds : Q;
  row_controller : string;
  mobility_posx : option Q;
  mobility_posy : option Q;
  appl_speed : option Q
}.

Record Vehicle := mkVehicle {
  prev_pos : Point;
  curr_pos : Point;
  speed : Q;
  controller : string
}.

(** The query of [Snapshot.__init__]: node id, controller, position and
    speed of the rows of run [run] at instant [t] whose position and speed
    are not null. *)
Definition select_snapshot (cursor : list Row) (run : Z) (t : Q)
  : list (Z * string * Q * Q * Q) :=
  omap (fun r =>
          if (run_id r =? run)%Z && Qeq_bool (seconds r) t then
            match mobility_posx r, mobility_posy r, appl_speed r with
            | Some x, Some y, Some s => Some (node_id r, row_controller r, x, y, s)
            | _, _, _ => None
            end
          else None) cursor.

Definition start_data_of (rows : list (Z * string * Q * Q * Q))
  : gmap Z (Point * string) :=
  foldl (fun d row =>
           let '(node_id, controller, xpos, ypos, _) := row in
           <[node_id := (mkPoint xpos ypos, controller)]> d) ∅ rows.

Definition end_data_of (rows : list (Z * string * Q * Q * Q))
  : gmap Z (Point * Q * string) :=
  foldl (fun d row =>
           let '(node_id, controller, xpos, ypos, speed) := row in
           <[node_id := (mkPoint xpos ypos, speed, controller)]> d) ∅ rows.

(** [Snapshot.__init__]: the dictionary [_data]. *)
Definition Snapshot_init (cursor : list Row) (run : Z) (start end_ : Q)
  : gmap Z Vehicle :=
  let start_data := start_data_of (select_snapshot cursor run start) in
  let end_data := end_data_of (select_snapshot cursor run end_) in
  let common_ids : gset Z := dom start_data ∩ dom end_data in
  set_fold (fun common_id _data =>
              match start_data !! common_id, end_data !! common_id with
              | Some s, Some e =>
                  <[common_id := mkVehicle s.1 e.1.1 e.1.2 e.2]> _data
              | _, _ => _data
              end) ∅ common_ids.

Definition Snapshot_items (self : gmap Z Vehicle) : list (Z * Vehicle) :=
  map_to_list self.

Definition Snapshot_get (self : gmap Z Vehicle) (vehicle_id : Z) : option Vehicle :=
  self !! vehicle_id.

Definition Snapshot_end (self : gmap Z Vehicle) : list (Z * Point) :=
  (fun kv => (kv.1, curr_pos kv.2)) <$> map_to_list self.

(** Row [r] of [cursor] is a row of run [run] at instant [t] with a
    position and a speed that are not null. *)
Definition observed (cursor : list Row) (run : Z) (t : Q) (r : Row) : Prop :=
  r ∈ cursor /\ run_id r = run /\ seconds r == t
  /\ is_Some (mobility_posx r) /\ is_Some (mobility_posy r)
  /\ is_Some (appl_speed r).

(** Vehicle [id] has such a row. *)
Definition observed_at (cursor : list Row) (run : Z) (t : Q) (id : Z) : Prop :=
  exists r, observed cursor run t r /\ node_id r = id.

(** ** The table [collisions] *)

Record Collision := mkCollision {
  leader_node_id : Z;
  follower_node_id : Z;
  collision_seconds : Q;
  collision_lane_id : string
}.

(** Equality on the primary key
    [(leader_node_id, follower_node_id, seconds)]. *)
Definition same_key (a b : Collision) : bool :=
  (leader_node_id a =? leader_node_id b)%Z
  && (follower_node_id a =? follower_node_id b)%Z
  && Qeq_bool (collision_seconds a) (collision_seconds b).

(** [insert or ignore into collisions values (?, ?, ?, ?)] *)
Definition insert_or_ignore (table : list Collision) (row : Collision)
  : list Collision :=
  if existsb (same_key row) table then table else table ++ [row].

(** No two rows of the table have the same primary key. *)
Fixpoint unique_keys (table : list Collision) : bool :=
  match table with
  | [] => true
  | row :: table' => negb (existsb (same_key row) table') && unique_keys table'
  end.

(** ** Statements of [main]: the table [collisions] is the state, an
    exception ends the run and keeps what was committed. *)

Definition M (A : Type) : Type :=
  list Collision -> list Collision * result A.

#[global] Instance M_ret : MRet M := fun A a table => (table, Ok a).

#[global] Instance M_bind : MBind M := fun A B f m table =>
  match m table with
  | (table', Ok a) => f a table'
  | (table', Raise e) => (table', Raise e)
  end.

Definition raise {A : Type} (e : Exception) : M A :=
  fun table => (table, Raise e).

Definition lift {A : Type} (r : result A) : M A :=
  fun table => (table, r).

(** [c.execute(sql_insert_collision, row); conn.commit()] *)
Definition execute_insert (row : Collision) : M unit :=
  fun table => (insert_or_ignore table row, Ok tt).

Fixpoint for_each {A : Type} (l : list A) (body : A -> M unit) : M unit :=
  match l with
  | [] => mret tt
  | x :: l' => body x ≫= fun _ => for_each l' body
  end.

(** Statement [m] ends without an exception and has inserted the rows
    [records], in this order, whatever the table was. *)
Definition emits (m : M unit) (records : list Collision) : Prop :=
  forall table : list Collision,
    m table = (foldl insert_or_ignore table records, Ok tt).

(** Statement [m] inserts the same rows and ends the same way, whatever
    the table was: it does not read the table. *)
Definition inserts {A : Type} (m : M A) : Prop :=
  exists (records : list Collision) (r : result A),
    forall table : list Collision,
      m table = (foldl insert_or_ignore table records, r).

(** ** The queries of [main] over [results] *)

Definition Qmin_opt (acc : option Q) (t : Q) : option Q :=
  match acc with None => Some t | Some u => Some (Qmin u t) end.

Definition Qmax_opt (acc : option Q) (t : Q) : option Q :=
  match acc with None => Some t | Some u => Some (Qmax u t) end.

(** [select min(seconds) from results where run_id = ?] *)
Definition select_min_seconds (results : list Row) (run : Z) : option Q :=
  foldl Qmin_opt None
    (seconds <$> List.filter (fun r => (run_id r =? run)%Z) results).

(** [select max(seconds) from results where run_id = ?] *)
Definition select_max_seconds (results : list Row) (run : Z) : option Q :=
  foldl Qmax_opt None
    (seconds <$> List.filter (fun r => (run_id r =? run)%Z) results).

Fixpoint insert_distinct (t : Q) (l : list Q) : list Q :=
  match l with
  | [] => [t]
  | u :: l' =>
      if Qltb t u then t :: l
      else if Qeq_bool t u then l
      else u :: insert_distinct t l'
  end.

(** [select distinct seconds from results where seconds >= ? and
    seconds <= ? order by seconds asc], the two parameters as Python hands
    them over: [None] is SQL's null, and no row compares with null. *)
Definition sql_instants (results : list Row) (lo hi : option Q) : list Q :=
  match lo, hi with
  | Some lo, Some hi =>
      foldr insert_distinct []
        (seconds <$> List.filter (fun r => Qle_bool lo (seconds r)
                                           && Qle_bool (seconds r) hi) results)
  | _, _ => []
  end.

(** [float.is_integer] *)
Definition is_integer (i : Q) : bool := Qeq_bool (inject_Z (Qfloor i)) i.

(** The format [:.2f] of an f-string: [None] has no such format. *)
Definition format_2f (x : option Q) : result unit :=
  match x with
  | Some _ => Ok tt
  | None => Raise TypeError
  end.

(** ** main *)

Record Args := mkArgs {
  args_xform_x1 : Q;
  args_xform_y1 : Q;
  args_xform_x2 : Q;
  args_xform_y2 : Q;
  args_xform_margin : Q;
  args_run_id : Z;
  args_debug : bool;
  args_start_time : option Q;
  args_end_time : option Q;
  args_ttc : Q;
  args_all_snapshots : bool
}.

Definition main_xformer (args : Args) : CoordTransformer :=
  CoordTransformer_init (mkPoint (args_xform_x1 args) (args_xform_y1 args))
                        (mkPoint (args_xform_x2 args) (args_xform_y2 args))
                        (args_xform_margin args).

(** The list [instants] of [main] as the loop sees it. *)
Definition main_instants (args : Args) (results : list Row) : list Q :=
  let instants := sql_instants results (args_start_time args) (args_end_time args) in
  if negb (args_all_snapshots args) then List.filter is_integer instants
  else instants.

(** The body of the loop over [nearby_vehicles]. *)
Definition check_nearby (edge_lookup : EdgeLookup) (snapshot : gmap Z Vehicle)
    (curr_instant : Q) (vehicle_id : Z) (vehicle : Vehicle)
    (vehicle_lane_id : string) (nearby : Z * Point) : M unit :=
  let nearby_vehicle_id := nearby.1 in
  if (nearby_vehicle_id =? vehicle_id)%Z then mret tt
  else
    match Snapshot_get snapshot nearby_vehicle_id with
    | None => raise AttributeError
    | Some nearby_vehicle =>
        nearby_lane ← lift (EdgeLookup_find edge_lookup (curr_pos nearby_vehicle)
                                             default_threshold);
        let nearby_vehicle_lane_id := lane_id nearby_lane in
        if negb (String.eqb nearby_vehicle_lane_id vehicle_lane_id) then mret tt
        else if negb (is_following (prev_pos vehicle) (curr_pos vehicle)
                                   (prev_pos nearby_vehicle) (curr_pos nearby_vehicle))
        then mret tt
        else execute_insert (mkCollision nearby_vehicle_id vehicle_id
                                         curr_instant vehicle_lane_id)
    end.

(** The body of the loop over [snapshot.items()]. *)
Definition check_vehicle (edge_lookup : EdgeLookup) (ttc : Q)
    (snapshot : gmap Z Vehicle) (ph : list (Z * Point)) (curr_instant : Q)
    (item : Z * Vehicle) : M unit :=
  let vehicle_id := item.1 in
  let vehicle := item.2 in
  lane ← lift (EdgeLookup_find edge_lookup (curr_pos vehicle) default_threshold);
  let vehicle_lane_id := lane_id lane in
  let ttc_boundry := speed vehicle * ttc in
  let nearby_vehicles := ProximityHelper_find ph (curr_pos vehicle) ttc_boundry in
  for_each nearby_vehicles
    (check_nearby edge_lookup snapshot curr_instant vehicle_id vehicle
                  vehicle_lane_id).

(** The body of the loop over [zip(instants, instants[1:])]. *)
Definition check_instants (edge_lookup : EdgeLookup) (args : Args)
    (results : list Row) (pair : Q * Q) : M unit :=
  let prev_instant := pair.1 in
  let curr_instant := pair.2 in
  let snapshot := Snapshot_init results (args_run_id args) prev_instant curr_instant in
  let ph := ProximityHelper_init (Snapshot_end snapshot) in
  for_each (Snapshot_items snapshot)
    (check_vehicle edge_lookup (args_ttc args) snapshot ph curr_instant).

(** [main], from the parsed arguments, the lanes of the network file and
    the rows of [results]; the state is the table [collisions] ([create
    table if not exists] keeps the table of an earlier run). *)
Definition main (args : Args) (netfile : list Lane) (results : list Row)
  : M unit :=
  let xformer := main_xformer args in
  let edge_lookup := EdgeLookup_init netfile xformer in
  let start_time :=
    match args_start_time args with
    | None => select_min_seconds results (args_run_id args)
    | Some t => Some t
    end in
  let end_time :=
    match args_end_time args with
    | None => select_max_seconds results (args_run_id args)
    | Some t => Some t
    end in
  let instants := main_instants args results in
  _ ← lift (format_2f (args_start_time args));
  _ ← lift (format_2f (args_end_time args));
  for_each (zip instants (tail instants)) (check_instants edge_lookup args results).

(** ** The detection as the specification words it *)

(** The lane id of a position, when the lookup finds one. *)
Definition lane_id_at (edge_lookup : EdgeLookup) (pos : Point) : option string :=
  match EdgeLookup_find edge_lookup pos default_threshold with
  | Ok lane => Some (lane_id lane)
  | Raise _ => None
  end.

(** Vehicle [v] with candidate [w]: a record with [w] as leader and [v] as
    follower when [w] is another vehicle on the lane of [v] that [v]
    follows. *)
Definition spec_record (edge_lookup : EdgeLookup) (snapshot : gmap Z Vehicle)
    (curr_instant : Q) (v_id : Z) (v : Vehicle) (w_id : Z) : option Collision :=
  if (w_id =? v_id)%Z then None
  else
    w ← snapshot !! w_id;
    v_lane ← lane_id_at edge_lookup (curr_pos v);
    w_lane ← lane_id_at edge_lookup (curr_pos w);
    if String.eqb w_lane v_lane
       && is_following (prev_pos v) (curr_pos v) (prev_pos w) (curr_pos w)
    then Some (mkCollision w_id v_id curr_instant v_lane)
    else None.

(** The records of one vehicle: one for each candidate of the proximity
    query around its position, with radius [speed * ttc]. *)
Definition spec_vehicle_records (edge_lookup : EdgeLookup) (ttc : Q)
    (snapshot : gmap Z Vehicle) (curr_instant : Q) (item : Z * Vehicle)
  : list Collision :=
  omap (fun w => spec_record edge_lookup snapshot curr_instant item.1 item.2 w.1)
       (ProximityHelper_find (ProximityHelper_init (Snapshot_end snapshot))
                             (curr_pos item.2) (speed item.2 * ttc)).

(** The records of one pair of instants. *)
Definition spec_pair_records (edge_lookup : EdgeLookup) (args : Args)
    (results : list Row) (pair : Q * Q) : list Collision :=
  let snapshot := Snapshot_init results (args_run_id args) pair.1 pair.2 in
  flat_map (spec_vehicle_records edge_lookup (args_ttc args) snapshot pair.2)
           (Snapshot_items snapshot).

(** The pairs of consecutive instants of a run of [main]. *)
Definition snapshot_pairs (args : Args) (results : list Row) : list (Q * Q) :=
  let instants := main_instants args results in
  zip instants (tail instants).

(** Every vehicle of the snapshot is on a lane: the lookup of its current
    position does not raise. *)
Definition resolves (edge_lookup : EdgeLookup) (snapshot : gmap Z Vehicle) : Prop :=
  forall (id : Z) (v : Vehicle),
    snapshot !! id = Some v ->
    exists lane : Lane,
      EdgeLookup_find edge_lookup (curr_pos v) default_threshold = Ok lane.

(** The records of the whole detection, in the order of the loops. *)
Definition spec_records (args : Args) (netfile : list Lane) (results : list Row)
  : list Collision :=
  flat_map (spec_pair_records (EdgeLookup_init netfile (main_xformer args))
                              args results)
           (snapshot_pairs args results).

(** [resolves], decided. *)
Definition resolves_b (edge_lookup : EdgeLookup) (snapshot : gmap Z Vehicle) : bool :=
  forallb (fun item : Z * Vehicle =>
             match EdgeLookup_find edge_lookup (curr_pos item.2) default_threshold with
             | Ok _ => true
             | Raise _ => false
             end) (map_to_list snapshot).

Definition all_resolve_b (args : Args) (netfile : list Lane) (results : list Row)
  : bool :=
  forallb (fun pair : Q * Q =>
             resolves_b (EdgeLookup_init netfile (main_xformer args))
                        (Snapshot_init results (args_run_id args) pair.1 pair.2))
          (snapshot_pairs args results).

(** ** A small trace *)

(** One lane along the x axis; the transformer keeps the points of the
    axis where they are. *)
Definition trace_lane : Lane :=
  mkLane (Some "e"%string) "e_0"%string 0 (139 # 10) 100
         (mkLineString (mkPoint 0 0) (mkPoint 100 0) []).

Definition trace_args (start_time end_time : option Q) : Args :=
  {| args_xform_x1 := 0; args_xform_y1 := 0;
     args_xform_x2 := 100; args_xform_y2 := 0;
     args_xform_margin := 0;
     args_run_id := 0;
     args_debug := false;
     args_start_time := start_time;
     args_end_time := end_time;
     args_ttc := 1;
     args_all_snapshots := false |}.

(** Run 0: vehicle 1 goes from 9 to 11 at speed 1 and vehicle 2, behind it,
    from 5 to 10 at speed 2, between the instants 1 and 2.  Run 1: vehicle 3
    is sampled at the instants 3/2 and 3. *)
Definition trace_results : list Row :=
  [ mkRow 1 0 1 "ACC" (Some 9) (Some 0) (Some 1);
    mkRow 2 0 1 "ACC" (Some 5) (Some 0) (Some 2);
    mkRow 1 0 2 "ACC" (Some 11) (Some 0) (Some 1);
    mkRow 2 0 2 "ACC" (Some 10) (Some 0) (Some 2);
    mkRow 3 1 (3 # 2) "ACC" (Some 10) (Some 0) (Some 2);
    mkRow 3 1 3 "ACC" (Some 12) (Some 0) (Some 2) ].

Definition trace_collision : Collision := mkCollision 1 2 2 "e_0".

(** ** What a run of [main] may do *)

(** Row [c] of [collisions] is the record of a follower [v] and a leader
    [w] of one snapshot of the run: two different vehicles on lanes of the
    same id, [w] in the extent of the buffer around [v], [v] following
    [w]. *)
Definition sound_record (args : Args) (netfile : list Lane) (results : list Row)
    (c : Collision) : Prop :=
  exists (pair : Q * Q) (v w : Vehicle) (lane lane_w : Lane),
    pair ∈ snapshot_pairs args results
    /\ collision_seconds c = pair.2
    /\ leader_node_id c <> follower_node_id c
    /\ Snapshot_init results (args_run_id args) pair.1 pair.2
         !! follower_node_id c = Some v
    /\ Snapshot_init results (args_run_id args) pair.1 pair.2
         !! leader_node_id c = Some w
    /\ EdgeLookup_find (EdgeLookup_init netfile (main_xformer args))
         (curr_pos v) default_threshold = Ok lane
    /\ EdgeLookup_find (EdgeLookup_init netfile (main_xformer args))
         (curr_pos w) default_threshold = Ok lane_w
    /\ lane_id lane_w = lane_id lane
    /\ collision_lane_id c = lane_id lane
    /\ is_following (prev_pos v) (curr_pos v) (prev_pos w) (curr_pos w) = true
    /\ in_buffer_extent (curr_pos v) (speed v * args_ttc args) (curr_pos w) = true.

(** Why a run ends with exception [e].  With [TypeError]: a bound is
    missing.  With any other exception both bounds are there, and either
    the network has no lane, or the network has lanes, the exception is
    [ValueError] and a vehicle of a snapshot is farther than the threshold
    from the nearest lane. *)
Definition explained (args : Args) (netfile : list Lane) (results : list Row)
    (e : Exception) : Prop :=
  match e with
  | TypeError => args_start_time args = None \/ args_end_time args = None
  | _ =>
      is_Some (args_start_time args) /\ is_Some (args_end_time args)
      /\ (netfile = []
          \/ netfile <> [] /\ e = ValueError
             /\ exists (pair : Q * Q) (id : Z) (v : Vehicle),
                  pair ∈ snapshot_pairs args results
                  /\ Snapshot_init results (args_run_id args) pair.1 pair.2 !! id
                     = Some v
                  /\ EdgeLookup_find (EdgeLookup_init netfile (main_xformer args))
                       (curr_pos v) default_threshold = Raise ValueError)
  end.

(** Statement [m] inserts rows that satisfy [P] only and, when it raises,
    raises an exception that satisfies [E], whatever the table was. *)
Definition run_spec {A : Type} (P : Collision -> Prop) (E : Exception -> Prop)
    (m : M A) : Prop :=
  exists (records : list Collision) (r : result A),
    Forall P records
    /\ (forall e : Exception, r = Raise e -> E e)
    /\ forall table : list Collision,
         m table = (foldl insert_or_ignore table records, r).

(** * sql2edgedata.py: speeds and congestion per edge

    The program reads the same network file and the same table [results]
    with the same [CoordTransformer] and [NetReader], and writes one XML
    element per edge that has samples.  The model keeps the numbers of the
    attributes and leaves their text out. *)

Module sql2edgedata.

Inductive Exception := KeyError | ValueError | ZeroDivisionError.

Inductive result (A : Type) :=
| Ok (a : A)
| Raise (e : Exception).
Arguments Ok {A} a.
Arguments Raise {A} e.

#[global] Instance result_ret : MRet result := fun A a => Ok a.

#[global] Instance result_bind : MBind result := fun A B f r =>
  match r with
  | Ok a => f a
  | Raise e => Raise e
  end.

(** [sum(v)] *)
Definition py_sum (v : list Q) : Q := foldl Qplus 0 v.

(** [len(v)] as a number *)
Definition py_len (v : list Q) : Q := inject_Z (Z.of_nat (length v)).

(** [x / y] *)
Definition py_div (x y : Q) : result Q :=
  if Qeq_bool y 0 then Raise ZeroDivisionError else Ok (x / y).

(** [min(v)] and [max(v)], which raise [ValueError] for an empty list *)
Definition py_min (v : list Q) : result Q :=
  match v with
  | [] => Raise ValueError
  | x :: v' => Ok (foldl Qmin x v')
  end.

Definition py_max (v : list Q) : result Q :=
  match v with
  | [] => Raise ValueError
  | x :: v' => Ok (foldl Qmax x v')
  end.

(** The square of [statistics.stdev(v)]: the sum of the squared distances
    to the mean, over [len(v) - 1]. *)
Definition variance (v : list Q) : Q :=
  let mean := py_sum v / py_len v in
  py_sum ((fun x => (x - mean) * (x - mean)) <$> v) / (py_len v - 1).

(** The dictionary [tmp] of [group_by_avg]: for each key the values of the
    dictionaries with this key, in their order. *)
Definition group_values `{Countable K} {D : Type} (dicts : list D)
    (key : D -> K) (value : D -> Q) : gmap K (list Q) :=
  foldl (fun (tmp : gmap K (list Q)) d =>
           let k := key d in
           let tmp := match tmp !! k with
                      | None => <[k := []]> tmp
                      | Some _ => tmp
                      end in
           alter (fun v => v ++ [value d]) k tmp) ∅ dicts.

(** [group_by_avg(dicts, key, value)], with [d[key]] and [d[value]] as
    functions of the dictionary [d]. *)
Definition group_by_avg `{Countable K} {D : Type} (dicts : list D)
    (key : D -> K) (value : D -> Q) : gmap K Q :=
  (fun v => py_sum v / py_len v) <$> group_values dicts key value.

Record Args := mkArgs {
  args_xform_x1 : Q;
  args_xform_y1 : Q;
  args_xform_x2 : Q;
  args_xform_y2 : Q;
  args_xform_margin : Q;
  args_run_id : Z;
  args_start_time : option Q;
  args_end_time : option Q
}.

Fixpoint insert_by_seconds (r : Row) (rows : list Row) : list Row :=
  match rows with
  | [] => [r]
  | x :: rows' =>
      if Qle_bool (seconds r) (seconds x) then r :: rows
      else x :: insert_by_seconds r rows'
  end.

(** [order by seconds asc]; rows of the same instant stay in the order of
    the table. *)
Definition order_by_seconds (rows : list Row) : list Row :=
  foldr insert_by_seconds [] rows.

(** The query of [main]: node id, instant, position and speed of the rows
    of run [run] from [start_time] on and before [end_time] whose position
    and speed are not null, by instant.  A bound that is [None] is SQL's
    null, and no row compares with null. *)
Definition select_samples (results : list Row) (run : Z)
    (start_time end_time : option Q) : list (Z * Q * Q * Q * Q) :=
  match start_time, end_time with
  | Some lo, Some hi =>
      omap (fun r =>
              if (run_id r =? run)%Z && Qle_bool lo (seconds r)
                 && Qltb (seconds r) hi then
                match mobility_posx r, mobility_posy r, appl_speed r with
                | Some x, Some y, Some s => Some (node_id r, seconds r, x, y, s)
                | _, _, _ => None
                end
              else None) (order_by_seconds results)
  | _, _ => []
  end.

(** The nearest lane of a sample and its edge; the distance is checked
    after the lookup.  For a network without lanes the model follows
    shapely 1.7: [nearest] is [None], and [lookup[id(nearest)]] raises
    [KeyError]. *)
Definition locate (lanes : list Lane) (xformer : CoordTransformer)
    (posx posy : Q) : result (option string) :=
  let traciPoint := omnet2traci xformer (mkPoint posx posy) in
  match STRtree_nearest lanes traciPoint with
  | None => Raise KeyError
  | Some nearest =>
      let lane := nearest in
      if distance_gt (linestring_distance2 (lane_points nearest) traciPoint) (1 # 10)
      then Raise ValueError
      else Ok (edge_id lane)
  end.

(** The dictionary [edgedata], in the order in which the edges came in:
    [edgedata[edge_id]['speeds'].append(speed)], with a new entry for a new
    edge. *)
Fixpoint edgedata_add (edgedata : list (option string * list Q))
    (edge : option string) (speed : Q) : list (option string * list Q) :=
  match edgedata with
  | [] => [(edge, [speed])]
  | (k, speeds) :: rest =>
      if decide (k = edge) then (k, speeds ++ [speed]) :: rest
      else (k, speeds) :: edgedata_add rest edge speed
  end.

(** [edgedata[edge]['speeds']], when [edge in edgedata]. *)
Fixpoint edgedata_get (edgedata : list (option string * list Q))
    (edge : option string) : option (list Q) :=
  match edgedata with
  | [] => None
  | (k, speeds) :: rest =>
      if decide (k = edge) then Some speeds else edgedata_get rest edge
  end.

(** The loop over the rows of the query. *)
Fixpoint collect (lanes : list Lane) (xformer : CoordTransformer)
    (rows : list (Z * Q * Q * Q * Q)) (edgedata : list (option string * list Q))
  : result (list (option string * list Q)) :=
  match rows with
  | [] => Ok edgedata
  | row :: rows' =>
      let '(node_id, seconds, posx, posy, speed) := row in
      match locate lanes xformer posx posy with
      | Raise e => Raise e
      | Ok edge => collect lanes xformer rows' (edgedata_add edgedata edge speed)
      end
  end.

(** The attributes of an [edge] element; [attr_stdev_speed2] is the square
    of the standard deviation written, [None] for the empty text. *)
Record EdgeElement := mkEdgeElement {
  attr_id : option string;
  attr_speed : Q;
  attr_length : Q;
  attr_avg_speed : Q;
  attr_min_speed : Q;
  attr_max_speed : Q;
  attr_stdev_speed2 : option Q;
  attr_travelrate : Q;
  attr_congestion_index : Q
}.

Definition dict_get (d : gmap (option string) Q) (k : option string) : result Q :=
  match d !! k with
  | Some x => Ok x
  | None => Raise KeyError
  end.

(** The body of the loop over [edgedata.items()]. *)
Definition edge_element (edge2speed edge2len : gmap (option string) Q)
    (edge : option string) (speeds : list Q) : result EdgeElement :=
  let n := py_len speeds in
  avg_speed ← py_div (py_sum speeds) n;
  min_speed ← py_min speeds;
  max_speed ← py_max speeds;
  let stdev_speed :=
    if (2 <? length speeds)%nat then Some (variance speeds) else None in
  inverse ← py_div 1 avg_speed;
  let travel_rate_mpkm := inverse * (16667 # 1000) in
  edge_speed ← dict_get edge2speed edge;
  edge_len ← dict_get edge2len edge;
  expected_travel_time ← py_div edge_len edge_speed;
  actual_travel_time ← py_div edge_len avg_speed;
  cidx ← py_div (actual_travel_time - expected_travel_time) expected_travel_time;
  Ok {| attr_id := edge;
        attr_speed := edge_speed;
        attr_length := edge_len;
        attr_avg_speed := avg_speed;
        attr_min_speed := min_speed;
        attr_max_speed := max_speed;
        attr_stdev_speed2 := stdev_speed;
        attr_travelrate := travel_rate_mpkm;
        attr_congestion_index := cidx |}.

(** What is written to [outfile]. *)
Inductive Line :=
| meandata_open
| interval_open (begin end_ : option Q)
| edge (e : EdgeElement)
| interval_close
| meandata_close.

Fixpoint write_edges (edge2speed edge2len : gmap (option string) Q)
    (edgedata : list (option string * list Q)) (written : list Line)
  : list Line * result unit :=
  match edgedata with
  | [] => (written, Ok tt)
  | (edge_id, speeds) :: rest =>
      match edge_element edge2speed edge2len edge_id speeds with
      | Raise e => (written, Raise e)
      | Ok e => write_edges edge2speed edge2len rest (written ++ [edge e])
      end
  end.

Definition main_xformer (args : Args) : CoordTransformer :=
  CoordTransformer_init (mkPoint (args_xform_x1 args) (args_xform_y1 args))
                        (mkPoint (args_xform_x2 args) (args_xform_y2 args))
                        (args_xform_margin args).

Definition main_start_time (args : Args) (results : list Row) : option Q :=
  match args_start_time args with
  | None => select_min_seconds results (args_run_id args)
  | Some t => Some t
  end.

Definition main_end_time (args : Args) (results : list Row) : option Q :=
  match args_end_time args with
  | None => select_max_seconds results (args_run_id args)
  | Some t => Some t
  end.

(** The rows the loop of [main] goes through. *)
Definition main_samples (args : Args) (results : list Row)
  : list (Z * Q * Q * Q * Q) :=
  select_samples results (args_run_id args)
                 (main_start_time args results) (main_end_time args results).

(** [main], from the parsed arguments, the lanes of the network file and
    the rows of [results], to what is written and how the run ends. *)
Definition main (args : Args) (netfile : list Lane) (results : list Row)
  : list Line * result unit :=
  let xformer := main_xformer args in
  let lanes := netfile in
  let start_time := main_start_time args results in
  let end_time := main_end_time args results in
  let edge2speed := group_by_avg lanes edge_id lane_speed in
  let edge2len := group_by_avg lanes edge_id lane_length in
  match collect lanes xformer (main_samples args results) [] with
  | Raise e => ([], Raise e)
  | Ok edgedata =>
      match write_edges edge2speed edge2len edgedata
              [meandata_open; interval_open start_time end_time] with
      | (written, Ok _) => (written ++ [interval_close; meandata_close], Ok tt)
      | (written, Raise e) => (written, Raise e)
      end
  end.

(** The speeds of the rows whose nearest lane is a lane of edge [k], in
    the order of the rows. *)
Definition speeds_on (lanes : list Lane) (xformer : CoordTransformer)
    (rows : list (Z * Q * Q * Q * Q)) (k : option string) : list Q :=
  omap (fun row : Z * Q * Q * Q * Q =>
          match locate lanes xformer row.1.1.2 row.1.2 with
          | Ok k' => if decide (k' = k) then Some row.2 else None
          | Raise _ => None
          end) rows.

(** Why a run ends with exception [e].  With [ZeroDivisionError]: an edge
    has samples and the sum of their speeds, the mean speed of its lanes
    or the mean length of its lanes is zero.  With any other exception
    there are samples, and either the network has no lane, or the network
    has lanes, the exception is [ValueError] and a sample is farther than
    0.1 from the nearest lane. *)
Definition explained (args : Args) (netfile : list Lane) (results : list Row)
    (e : Exception) : Prop :=
  match e with
  | KeyError | ValueError =>
      main_samples args results <> []
      /\ (netfile = []
          \/ netfile <> [] /\ e = ValueError
             /\ exists row : Z * Q * Q * Q * Q,
                  row ∈ main_samples args results
                  /\ locate netfile (main_xformer args) row.1.1.2 row.1.2
                     = Raise ValueError)
  | ZeroDivisionError =>
      exists (k : option string) (edge_speed edge_len : Q),
        let speeds :=
          speeds_on netfile (main_xformer args) (main_samples args results) k in
        speeds <> []
        /\ group_by_avg netfile edge_id lane_speed !! k = Some edge_speed
        /\ group_by_avg netfile edge_id lane_length !! k = Some edge_len
        /\ (py_sum speeds == 0 \/ edge_speed == 0 \/ edge_len == 0)
  end.

End sql2edgedata.

(** The arguments of sql2edgedata.py for the small trace. *)
Definition trace_edge_args (start_time end_time : option Q) : sql2edgedata.Args :=
  {| sql2edgedata.args_xform_x1 := 0; sql2edgedata.args_xform_y1 := 0;
     sql2edgedata.args_xform_x2 := 100; sql2edgedata.args_xform_y2 := 0;
     sql2edgedata.args_xform_margin := 0;
     sql2edgedata.args_run_id := 0;
     sql2edgedata.args_start_time := start_time;
     sql2edgedata.args_end_time := end_time |}.

(** A queue: two vehicles of run 0 stand on the lane at the instants 1
    and 2. *)
Definition queue_results : list Row :=
  [ mkRow 1 0 1 "ACC" (Some 9) (Some 0) (Some 0);
    mkRow 2 0 1 "ACC" (Some 5) (Some 0) (Some 0);
    mkRow 1 0 2 "ACC" (Some 9) (Some 0) (Some 0);
    mkRow 2 0 2 "ACC" (Some 5) (Some 0) (Some 0) ].

(** * Properties *)

Section Distances.

Lemma sq_nonneg (x : Q) : 0 <= sq x.
Proof. unfold sq. nra. Qed.

Lemma distance2_nonneg (a b : Point) : 0 <= distance2 a b.
Proof.
    unfold distance2.
    pose proof (sq_nonneg (px a - px b)).
    pose proof (sq_nonneg (py a - py b)). lra.
Qed.

Lemma distance2_zero_iff (a b : Point) :
  distance2 a b == 0 <-> px a == px b /\ py a == py b.
Proof.
  unfold distance2, sq. split.
  - intros H.
    pose proof (sq_nonneg (px a - px b)) as Hx0.
    pose proof (sq_nonneg (py a - py b)) as Hy0. unfold sq in Hx0, Hy0.
    assert ((px a - px b) * (px a - px b) == 0) as Hx by lra.
    assert ((py a - py b) * (py a - py b) == 0) as Hy by lra.
    apply Qmult_integral in Hx, Hy. split; [destruct Hx | destruct Hy]; lra.
  - intros [Hx Hy]. rewrite Hx, Hy. ring.
Qed.

Lemma Qltb_lt (x y : Q) : Qltb x y = true <-> x < y.
Proof.
    unfold Qltb. rewrite negb_true_iff, <- not_true_iff_false, Qle_bool_iff.
    split; [apply Qnot_le_lt | apply Qlt_not_le].
Qed.



End Distances.

(** ** The coordinate transformer *)

Lemma round_half_even_error (x : Q) :
  Qabs (inject_Z (round_half_even x) - x) <= 1 # 2.
Proof.
  unfold round_half_even. cbv zeta.
  pose proof (Qfloor_le x) as Hlo. pose proof (Qlt_floor x) as Hhi.
  rewrite inject_Z_plus in Hhi. change (inject_Z 1) with 1 in Hhi.
  assert (inject_Z (Qfloor x + 1) == inject_Z (Qfloor x) + 1) as Hplus
    by (rewrite inject_Z_plus; reflexivity).
  destruct (Qcompare (x - inject_Z (Qfloor x)) (1 # 2)) eqn:Hc.
  - apply Qeq_alt in Hc.
    destruct (Z.even (Qfloor x)); [| rewrite Hplus];
      apply Qabs_Qle_condition; split; lra.
  - apply Qlt_alt in Hc. apply Qabs_Qle_condition; split; lra.
  - apply Qgt_alt in Hc. rewrite Hplus. apply Qabs_Qle_condition; split; lra.
Qed.

Lemma Qabs_as_quotient (x : Q) :
  Qabs x == inject_Z (Z.abs (Qnum x)) / inject_Z (Z.pos (Qden x)).
Proof.
  destruct x as [n d]. unfold Qabs. simpl Qnum. simpl Qden.
  rewrite (Qmake_Qdiv (Z.abs n) d). reflexivity.
Qed.

Lemma two_power_pos (e : Z) : 0 < 2 ^ e.
Proof. now apply Qpower_0_lt. Qed.

(** The place [round53] rounds at leaves at least 53 binary places. *)
Lemma last_place_bound (x : Q) :
  ~ x == 0 -> 2 ^ 52 <= Qabs x / 2 ^ last_place x.
Proof.
  intros Hx. unfold last_place. cbv zeta.
  set (n := Z.abs (Qnum x)). set (d := Z.pos (Qden x)).
  destruct (Qle_bool _ _) eqn:Htest; [now apply Qle_bool_iff |]. clear Htest.
  assert (0 < n)%Z as Hn.
  { subst n. destruct x as [[| p | p] q]; try reflexivity.
    exfalso. apply Hx. reflexivity. }
  assert (0 < d)%Z as Hd by reflexivity.
  destruct (Z.log2_spec n Hn) as [Hn_lo _].
  destruct (Z.log2_spec d Hd) as [_ Hd_hi].
  pose proof (Z.log2_nonneg n) as Ha. pose proof (Z.log2_nonneg d) as Hb.
  set (a := Z.log2 n) in *. set (b := Z.log2 d) in *.
  assert (2 ^ a <= inject_Z n) as HA.
  { rewrite <- (Zpower_Qpower 2 a Ha). now rewrite <- Zle_Qle. }
  assert (inject_Z d <= 2 ^ Z.succ b) as HB.
  { rewrite <- (Zpower_Qpower 2 (Z.succ b)) by lia.
    rewrite <- Zle_Qle. lia. }
  assert (0 < inject_Z d) as HD
    by (change 0 with (inject_Z 0); now rewrite <- Zlt_Qlt).
  replace (a - b - 52 - 1)%Z with (a - Z.succ b - 52)%Z by lia.
  rewrite !Qpower_minus by discriminate.
  rewrite (Qabs_as_quotient x). fold n d.
  pose proof (two_power_pos a) as Pa.
  pose proof (two_power_pos (Z.succ b)) as Pb.
  generalize dependent (2 ^ a). generalize dependent (2 ^ Z.succ b).
  generalize dependent (inject_Z n). generalize dependent (inject_Z d).
  intros D HD N B HB PB A HA PA.
  assert (N / D / (A / B / 2 ^ 52) == 2 ^ 52 * ((N * B) / (A * D))) as ->.
  { field. repeat split; lra || discriminate. }
  assert (1 <= N * B / (A * D)) as H1.
  { apply Qle_shift_div_l; [nra | nra]. }
  assert (0 < 2 ^ 52) by reflexivity.
  generalize dependent (2 ^ 52). intros T HT. nra.
Qed.

(** [round53] is off by at most the unit roundoff times the exact value. *)
Lemma round53_rounds : rounds_to_nearest round53.
Proof.
  intros x. unfold round53.
  destruct (Qeq_bool x 0) eqn:Hx.
  - apply Qeq_bool_iff in Hx.
    assert (0 - x == 0) as -> by (rewrite Hx; ring).
    change (Qabs 0) with 0. unfold unit_roundoff.
    pose proof (Qabs_nonneg x) as Hnonneg.
    generalize dependent (Qabs x). intros q Hq. lra.
  - apply Qeq_bool_neq in Hx.
    pose proof (last_place_bound x Hx) as Hm.
    pose proof (two_power_pos (last_place x)) as HP.
    set (P := 2 ^ last_place x) in *.
    pose proof (round_half_even_error (x / P)) as Herr.
    set (r := inject_Z (round_half_even (x / P))) in *.
    assert (r * P - x == (r - x / P) * P) as -> by (field; lra).
    rewrite Qabs_Qmult, (Qabs_pos P) by lra.
    assert (Qabs x == Qabs (x / P) * P) as HxP.
    { rewrite <- (Qabs_pos P) at 2 by lra. rewrite <- Qabs_Qmult.
      apply Qabs_wd. field. lra. }
    assert (Qabs x / P == Qabs (x / P)) as HmP.
    { rewrite HxP. field. lra. }
    rewrite HmP in Hm. rewrite HxP.
    unfold unit_roundoff.
    change (2 ^ 52) with 4503599627370496 in Hm.
    generalize dependent (Qabs (r - x / P)).
    generalize dependent (Qabs (x / P)). intros M HM _ _ E HE.
    clearbody P. clear r. nra.
Qed.

(** The transformer rounded by [round53] computes what the transformer on
    doubles computes: with the corners and the margin [main] takes by
    default ([679.56], [966.0], [4441.09], [9242.02], [25.0]) on the points
    [(1000.1, 2000.2)] and [(0.1, 0.3)], and with a corner at [2^40] on a
    point at [2^-20]. *)
Example Float64_round53_agree :
  roundtrips_agree
    (Float64.mkPoint 0x1.53c7ae147ae14p+9 966)
    (Float64.mkPoint 0x1.159170a3d70a4p+12 0x1.20d028f5c28f6p+13) 25
    (Float64.mkPoint 0x1.f40cccccccccdp+9 0x1.f40cccccccccdp+10) = true
  /\ roundtrips_agree
       (Float64.mkPoint 0x1.53c7ae147ae14p+9 966)
       (Float64.mkPoint 0x1.159170a3d70a4p+12 0x1.20d028f5c28f6p+13) 25
       (Float64.mkPoint 0x1.999999999999ap-4 0x1.3333333333333p-2) = true
  /\ roundtrips_agree
       (Float64.mkPoint 0x1p40 0) (Float64.mkPoint 0x1p41 0) 0
       (Float64.mkPoint 0x1p-20 0) = true.
Proof. repeat split; vm_compute; reflexivity. Qed.

Lemma rounding_error (rnd : Q -> Q) (x : Q) :
  rounds_to_nearest rnd ->
  Qabs x <= 1000000 ->
  - (1000000 # 9007199254740992) <= rnd x - x
  /\ rnd x - x <= 1000000 # 9007199254740992.
Proof.
  intros Hrnd Hx. apply Qabs_Qle_condition.
  eapply Qle_trans; [apply Hrnd |].
  unfold unit_roundoff.
  assert (1000000 # 9007199254740992 == (1 # 9007199254740992) * 1000000) as ->
    by reflexivity.
  apply Qmult_le_l; [reflexivity | exact Hx].
Qed.

Ltac rounded rnd Hrnd e :=
  let H := fresh "Hmag" in
  let t := fresh "t" in
  assert (Qabs e <= 1000000) as H by (apply Qabs_Qle_condition; split; lra);
  apply (rounding_error rnd e Hrnd) in H; destruct H as [? ?];
  set (t := rnd e) in *.

(** C6, as amended.  With every sum and difference rounded as binary64
    rounds it, and for every transformer and every point whose coordinates,
    corner coordinates and margin are at most [100000] in absolute value,
    [traci2omnet (omnet2traci p)] (the specification's
    [toSim (toNetwork p)]) is within [1e-9] of [p] in both coordinates.
    The two maps are total functions from points to points: they have no
    error case. *)
Theorem roundtrip_within_tolerance (rnd : Q -> Q) (topleft bottomright : Point)
    (margin : Q) (p : Point) :
  rounds_to_nearest rnd ->
  moderate (px topleft) -> moderate (py topleft) ->
  moderate (py bottomright) -> moderate margin ->
  moderate (px p) -> moderate (py p) ->
  let xf := Rounded.CoordTransformer_init rnd topleft bottomright margin in
  let q := Rounded.traci2omnet rnd xf (Rounded.omnet2traci rnd xf p) in
  Qabs (px q - px p) <= tolerance /\ Qabs (py q - py p) <= tolerance.
Proof.
  unfold moderate, tolerance.
  intros Hrnd [? ?]%Qabs_Qle_condition [? ?]%Qabs_Qle_condition
         [? ?]%Qabs_Qle_condition [? ?]%Qabs_Qle_condition
         [? ?]%Qabs_Qle_condition [? ?]%Qabs_Qle_condition.
  destruct topleft as [tx ty], bottomright as [bx by_], p as [x y].
  unfold Rounded.traci2omnet, Rounded.omnet2traci, Rounded.CoordTransformer_init.
  cbn [px py _dimensions _topleft _bottomright _margin] in *. split.
  - rounded rnd Hrnd (x + tx).
    rounded rnd Hrnd (t - margin).
    rounded rnd Hrnd (t0 - tx).
    rounded rnd Hrnd (t1 + margin).
    apply Qabs_Qle_condition. split; lra.
  - rounded rnd Hrnd (by_ - ty).
    rounded rnd Hrnd (y - ty).
    rounded rnd Hrnd (t - t0).
    rounded rnd Hrnd (t1 + margin).
    rounded rnd Hrnd (t2 - ty).
    rounded rnd Hrnd (t - t3).
    rounded rnd Hrnd (t4 + margin).
    apply Qabs_Qle_condition. split; lra.
Qed.

(** The round trip with the corners and the margin [main] takes by
    default, rounded by [round53]. *)
Lemma roundtrip_within_tolerance_witness :
  let xf := Rounded.CoordTransformer_init round53
              (mkPoint (67956 # 100) 966) (mkPoint (444109 # 100) (924202 # 100))
              25 in
  let p := mkPoint (10001 # 10) (20002 # 10) in
  let q := Rounded.traci2omnet round53 xf (Rounded.omnet2traci round53 xf p) in
  Qabs (px q - px p) <= tolerance /\ Qabs (py q - py p) <= tolerance.
Proof.
  apply (roundtrip_within_tolerance round53
           (mkPoint (67956 # 100) 966) (mkPoint (444109 # 100) (924202 # 100))
           25 (mkPoint (10001 # 10) (20002 # 10)));
    [exact round53_rounds | vm_compute; discriminate ..].
Defined.

(** The other round trip, under the same rounding and the same bounds:
    [omnet2traci (traci2omnet p)] is within [1e-9] of [p]. *)
Theorem toNetwork_toSim_within_tolerance (rnd : Q -> Q)
    (topleft bottomright : Point) (margin : Q) (p : Point) :
  rounds_to_nearest rnd ->
  moderate (px topleft) -> moderate (py topleft) ->
  moderate (py bottomright) -> moderate margin ->
  moderate (px p) -> moderate (py p) ->
  let xf := Rounded.CoordTransformer_init rnd topleft bottomright margin in
  let q := Rounded.omnet2traci rnd xf (Rounded.traci2omnet rnd xf p) in
  Qabs (px q - px p) <= tolerance /\ Qabs (py q - py p) <= tolerance.
Proof.
  unfold moderate, tolerance.
  intros Hrnd [? ?]%Qabs_Qle_condition [? ?]%Qabs_Qle_condition
         [? ?]%Qabs_Qle_condition [? ?]%Qabs_Qle_condition
         [? ?]%Qabs_Qle_condition [? ?]%Qabs_Qle_condition.
  destruct topleft as [tx ty], bottomright as [bx by_], p as [x y].
  unfold Rounded.traci2omnet, Rounded.omnet2traci, Rounded.CoordTransformer_init.
  cbn [px py _dimensions _topleft _bottomright _margin] in *. split.
  - rounded rnd Hrnd (x - tx).
    rounded rnd Hrnd (t + margin).
    rounded rnd Hrnd (t0 + tx).
    rounded rnd Hrnd (t1 - margin).
    apply Qabs_Qle_condition. split; lra.
  - rounded rnd Hrnd (by_ - ty).
    rounded rnd Hrnd (y - ty).
    rounded rnd Hrnd (t - t0).
    rounded rnd Hrnd (t1 + margin).
    rounded rnd Hrnd (t2 - ty).
    rounded rnd Hrnd (t - t3).
    rounded rnd Hrnd (t4 + margin).
    apply Qabs_Qle_condition. split; lra.
Qed.

Lemma toNetwork_toSim_within_tolerance_witness :
  let xf := Rounded.CoordTransformer_init round53
              (mkPoint (67956 # 100) 966) (mkPoint (444109 # 100) (924202 # 100))
              25 in
  let p := mkPoint (10001 # 10) (20002 # 10) in
  let q := Rounded.omnet2traci round53 xf (Rounded.traci2omnet round53 xf p) in
  Qabs (px q - px p) <= tolerance /\ Qabs (py q - py p) <= tolerance.
Proof.
  apply (toNetwork_toSim_within_tolerance round53
           (mkPoint (67956 # 100) 966) (mkPoint (444109 # 100) (924202 # 100))
           25 (mkPoint (10001 # 10) (20002 # 10)));
    [exact round53_rounds | vm_compute; discriminate ..].
Defined.

(** C6, as stated, fails on doubles.  The top-left corner is at
    [x = 2^40] and the point at [x = 2^-20]: the sum of the two rounds to
    [2^40], the round trip gives [x = 0], and [2^-20] is more than [1e-9]
    away from it. *)
Lemma roundtrip_beyond_tolerance :
  ~ (forall (topleft bottomright : Float64.Point) (margin : float)
            (p : Float64.Point),
        let xf := Float64.CoordTransformer_init topleft bottomright margin in
        let q := Float64.traci2omnet xf (Float64.omnet2traci xf p) in
        Float64.within Float64.tolerance (Float64.px q) (Float64.px p) = true
        /\ Float64.within Float64.tolerance (Float64.py q) (Float64.py p) = true).
Proof.
  intros H.
  destruct (H (Float64.mkPoint 0x1p40 0) (Float64.mkPoint 0x1p41 0) 0%float
              (Float64.mkPoint 0x1p-20 0)) as [Hx _].
  vm_compute in Hx. discriminate Hx.
Qed.

(** ** The following predicate *)


(** The examples of the docstring of [is_following], in its order. *)
Example is_following_doctests :
  is_following (mkPoint 0 0) (mkPoint 1 0) (mkPoint 3 0) (mkPoint 4 0) = true
  /\ is_following (mkPoint 0 0) (mkPoint 1 0) (mkPoint 1 0) (mkPoint 2 0) = true
  /\ is_following (mkPoint 3 0) (mkPoint 4 0) (mkPoint 0 0) (mkPoint 1 0) = false
  /\ is_following (mkPoint 1 0) (mkPoint 2 0) (mkPoint 0 0) (mkPoint 1 0) = false
  /\ is_following (mkPoint 2 0) (mkPoint 1 0) (mkPoint 3 0) (mkPoint 4 0) = false
  /\ is_following (mkPoint 0 0) (mkPoint 1 0) (mkPoint 1 0) (mkPoint 3 0) = false
  /\ is_following (mkPoint 3 0) (mkPoint 4 0) (mkPoint 0 0) (mkPoint 3 0) = false
  /\ is_following (mkPoint 0 0) (mkPoint 3 0) (mkPoint 2 0) (mkPoint 4 0) = true
  /\ is_following (mkPoint 2 0) (mkPoint 4 0) (mkPoint 0 0) (mkPoint 1 0) = false.
Proof. repeat split; reflexivity. Qed.

(** C9, on the code.  Vehicle [u] goes from [(0,0)] to [(10,0)] and vehicle
    [v], one unit ahead of it, from [(1,0)] to [(11,0)]: [u] is behind [v]
    at both instants, and [is_following] holds in both directions. *)
Theorem is_following_both_directions :
  let up := mkPoint 0 0 in
  let uc := mkPoint 10 0 in
  let vp := mkPoint 1 0 in
  let vc := mkPoint 11 0 in
  is_following up uc vp vc = true /\ is_following vp vc up uc = true.
Proof. split; reflexivity. Qed.

(** ** The proximity helper *)

Lemma Q2R_sq (x : Q) : Q2R (sq x) = (Q2R x * Q2R x)%R.
Proof. unfold sq. apply Q2R_mult. Qed.

Lemma sqrt_Q2R_le (d2 threshold : Q) :
  0 <= d2 ->
  (sqrt (Q2R d2) <= Q2R threshold)%R <-> 0 <= threshold /\ d2 <= sq threshold.
Proof.
  intros Hd. apply Qle_Rle in Hd. rewrite RMicromega.Q2R_0 in Hd.
  split.
  - intros H.
    assert (0 <= Q2R threshold)%R as Ht
      by (eapply Rle_trans; [apply sqrt_pos | exact H]).
    split.
    + apply Rle_Qle. now rewrite RMicromega.Q2R_0.
    + apply Rle_Qle. rewrite Q2R_sq.
      apply sqrt_le_0; [exact Hd | now apply Rmult_le_pos |].
      now rewrite sqrt_square.
  - intros [Ht H]. apply Qle_Rle in Ht, H.
    rewrite RMicromega.Q2R_0 in Ht. rewrite Q2R_sq in H.
    rewrite <- (sqrt_square (Q2R threshold)) by exact Ht.
    now apply sqrt_le_1_alt.
Qed.

Lemma sq_le_Qabs (x t : Q) : 0 <= t -> sq x <= sq t -> Qabs x <= t.
Proof.
  unfold sq. intros Ht H. apply Qabs_Qle_condition.
  split.
  - destruct (Qlt_le_dec x (- t)) as [Hlt | Hge]; [| exact Hge].
    exfalso. assert (0 < (- t - x) * (t - x)) by (apply Qmult_lt_0_compat; lra).
    nra.
  - destruct (Qlt_le_dec t x) as [Hlt | Hge]; [| exact Hge].
    exfalso. assert (0 < (x - t) * (x + t)) by (apply Qmult_lt_0_compat; lra).
    nra.
Qed.

Lemma within_threshold_iff (pos : Point) (threshold : Q) (q : Point) :
  within_threshold pos threshold q
  <-> 0 <= threshold /\ distance2 pos q <= sq threshold.
Proof. apply sqrt_Q2R_le, distance2_nonneg. Qed.

Lemma in_buffer_extent_iff (pos : Point) (threshold : Q) (q : Point) :
  in_buffer_extent pos threshold q = true
  <-> 0 < threshold
      /\ Qabs (px q - px pos) <= threshold
      /\ Qabs (py q - py pos) <= threshold.
Proof.
  unfold in_buffer_extent.
  rewrite !andb_true_iff, Qltb_lt, !Qle_bool_iff. tauto.
Qed.

(** Every point within a positive threshold is in the extent of the
    buffer: for such a threshold [find] misses nothing. *)
Lemma within_threshold_in_extent (pos : Point) (threshold : Q) (q : Point) :
  0 < threshold ->
  within_threshold pos threshold q ->
  in_buffer_extent pos threshold q = true.
Proof.
  intros Hpos [Ht Hd]%within_threshold_iff.
  apply in_buffer_extent_iff. split; [exact Hpos |].
  unfold distance2 in Hd.
  pose proof (sq_nonneg (px pos - px q)) as Hx.
  pose proof (sq_nonneg (py pos - py q)) as Hy.
  split; apply sq_le_Qabs; try exact Ht.
  - assert (sq (px q - px pos) == sq (px pos - px q)) as ->
      by (unfold sq; ring).
    lra.
  - assert (sq (py q - py pos) == sq (py pos - py q)) as ->
      by (unfold sq; ring).
    lra.
Qed.

(** C3, on the code.  The helper holds one thing, at [(8,8)]; [find] around
    [(0,0)] with threshold [10] returns it, and its distance to [(0,0)] is
    more than [10]. *)
Theorem ProximityHelper_find_beyond_threshold :
  let ph := ProximityHelper_init [(1%Z, mkPoint 8 8)] in
  ProximityHelper_find ph (mkPoint 0 0) 10 = [(1%Z, mkPoint 8 8)]
  /\ ~ within_threshold (mkPoint 0 0) 10 (mkPoint 8 8).
Proof.
  split; [vm_compute; reflexivity |].
  intros [_ H]%within_threshold_iff. vm_compute in H. now apply H.
Qed.

(** With threshold [0] the buffer is empty and [find] returns nothing, not
    even a thing at [pos] itself. *)
Lemma ProximityHelper_find_zero (data : list (Z * Point)) (pos : Point) :
  ProximityHelper_find (ProximityHelper_init data) pos 0 = [].
Proof.
  unfold ProximityHelper_find.
  induction (ProximityHelper_init data) as [| row l IH]; [reflexivity |].
  simpl. exact IH.
Qed.

(** An empty helper has nothing to return. *)
Lemma ProximityHelper_find_empty (pos : Point) (threshold : Q) :
  ProximityHelper_find (ProximityHelper_init []) pos threshold = [].
Proof. reflexivity. Qed.

(** ** Snapshots *)

Section FoldlInsert.

Context {A V : Type} (k : A -> Z) (v : A -> V).

Let step (d : gmap Z V) (row : A) : gmap Z V := <[k row := v row]> d.

Lemma foldl_insert_Some (rows : list A) (d : gmap Z V) (id : Z) (x : V) :
  foldl step d rows !! id = Some x ->
  (exists row, row ∈ rows /\ k row = id /\ v row = x) \/ d !! id = Some x.
Proof.
  revert d. induction rows as [| row rows IH]; intros d H; simpl in H.
  - now right.
  - destruct (IH _ H) as [(row' & Hin & Hk & Hv) | Hd].
    + left. exists row'. split; [now apply list_elem_of_further | easy].
    + unfold step in Hd. rewrite lookup_insert in Hd.
      case_decide as Hid.
      * left. exists row. split; [apply list_elem_of_here |].
        split; congruence.
      * now right.
Qed.

Lemma foldl_insert_is_Some (rows : list A) (d : gmap Z V) (id : Z) :
  (exists row, row ∈ rows /\ k row = id) \/ is_Some (d !! id) ->
  is_Some (foldl step d rows !! id).
Proof.
  revert d. induction rows as [| row rows IH]; intros d H; simpl.
  - destruct H as [(row & Hin & _) | H]; [| exact H].
    now apply elem_of_nil in Hin.
  - apply IH. destruct H as [(row' & Hin & Hk) | H].
    + apply elem_of_cons in Hin as [-> | Hin].
      * right. unfold step. rewrite <- Hk, lookup_insert_eq. eauto.
      * left. eauto.
    + right. unfold step. rewrite lookup_insert.
      case_decide; [eauto | exact H].
Qed.

End FoldlInsert.

Lemma foldl_pointwise {A B : Type} (f g : B -> A -> B) (l : list A) (b : B) :
  (forall b a, f b a = g b a) -> foldl f b l = foldl g b l.
Proof.
  intros E. revert b. induction l as [| a l IH]; intros b; simpl;
    [reflexivity | now rewrite E, IH].
Qed.

Lemma start_data_of_foldl (rows : list (Z * string * Q * Q * Q)) :
  start_data_of rows
  = foldl (fun d row => <[row.1.1.1.1 := (mkPoint row.1.1.2 row.1.2, row.1.1.1.2)]> d)
          ∅ rows.
Proof. apply foldl_pointwise. now intros d [[[[??]?]?]?]. Qed.

Lemma end_data_of_foldl (rows : list (Z * string * Q * Q * Q)) :
  end_data_of rows
  = foldl (fun d row =>
             <[row.1.1.1.1 := (mkPoint row.1.1.2 row.1.2, row.2, row.1.1.1.2)]> d)
          ∅ rows.
Proof. apply foldl_pointwise. now intros d [[[[??]?]?]?]. Qed.

Lemma elem_of_select_snapshot (cursor : list Row) (run : Z) (t : Q)
    (row : Z * string * Q * Q * Q) :
  row ∈ select_snapshot cursor run t
  <-> exists r, observed cursor run t r
             /\ row.1.1.1.1 = node_id r /\ row.1.1.1.2 = row_controller r
             /\ mobility_posx r = Some row.1.1.2
             /\ mobility_posy r = Some row.1.2
             /\ appl_speed r = Some row.2.
Proof.
  unfold select_snapshot, observed. rewrite list_elem_of_omap.
  split.
  - intros (r & Hin & Hr). exists r.
    destruct ((run_id r =? run)%Z) eqn:Hrun; [| discriminate].
    destruct (Qeq_bool (seconds r) t) eqn:Ht; [| discriminate].
    apply Z.eqb_eq in Hrun. apply Qeq_bool_iff in Ht. simpl in Hr.
    destruct (mobility_posx r), (mobility_posy r), (appl_speed r);
      try discriminate.
    injection Hr as <-. simpl. repeat split; eauto.
  - intros (r & (Hin & Hrun & Ht & _) & Hid & Hc & Hx & Hy & Hs).
    exists r. split; [exact Hin |].
    apply Z.eqb_eq in Hrun. apply Qeq_bool_iff in Ht.
    rewrite Hrun, Ht, Hx, Hy, Hs. simpl.
    destruct row as [[[[??]?]?]?]. simpl in *. congruence.
Qed.

Lemma observed_select_snapshot (cursor : list Row) (run : Z) (t : Q) (r : Row) :
  observed cursor run t r ->
  exists row, row ∈ select_snapshot cursor run t /\ row.1.1.1.1 = node_id r.
Proof.
  intros Hobs. pose proof Hobs as (_ & _ & _ & [x Hx] & [y Hy] & [s Hs]).
  exists (node_id r, row_controller r, x, y, s). split; [| reflexivity].
  apply elem_of_select_snapshot. exists r. simpl.
  split; [exact Hobs | repeat split; assumption].
Qed.

Lemma start_data_is_Some (cursor : list Row) (run : Z) (t : Q) (id : Z) :
  is_Some (start_data_of (select_snapshot cursor run t) !! id)
  <-> observed_at cursor run t id.
Proof.
  rewrite start_data_of_foldl. split.
  - intros [x Hx]. apply foldl_insert_Some in Hx as [(row & Hin & Hk & _) | Hx].
    + apply elem_of_select_snapshot in Hin as (r & Hobs & Hid & _).
      exists r. split; [exact Hobs | congruence].
    + now rewrite lookup_empty in Hx.
  - intros (r & Hobs & Hid).
    apply (foldl_insert_is_Some (fun row => row.1.1.1.1)). left.
    destruct (observed_select_snapshot _ _ _ _ Hobs) as (row & Hin & Hk).
    exists row. split; [exact Hin | congruence].
Qed.

Lemma end_data_is_Some (cursor : list Row) (run : Z) (t : Q) (id : Z) :
  is_Some (end_data_of (select_snapshot cursor run t) !! id)
  <-> observed_at cursor run t id.
Proof.
  rewrite end_data_of_foldl. split.
  - intros [x Hx]. apply foldl_insert_Some in Hx as [(row & Hin & Hk & _) | Hx].
    + apply elem_of_select_snapshot in Hin as (r & Hobs & Hid & _).
      exists r. split; [exact Hobs | congruence].
    + now rewrite lookup_empty in Hx.
  - intros (r & Hobs & Hid).
    apply (foldl_insert_is_Some (fun row => row.1.1.1.1)). left.
    destruct (observed_select_snapshot _ _ _ _ Hobs) as (row & Hin & Hk).
    exists row. split; [exact Hin | congruence].
Qed.

(** The dictionary [_data] holds, for each id of both [start_data] and
    [end_data], the vehicle made of the two entries. *)
Lemma Snapshot_init_lookup (cursor : list Row) (run : Z) (start end_ : Q) (id : Z) :
  Snapshot_init cursor run start end_ !! id
  = match start_data_of (select_snapshot cursor run start) !! id,
          end_data_of (select_snapshot cursor run end_) !! id with
    | Some s, Some e => Some (mkVehicle s.1 e.1.1 e.1.2 e.2)
    | _, _ => None
    end.
Proof.
  unfold Snapshot_init.
  set (start_data := start_data_of _). set (end_data := end_data_of _).
  set (f := fun (common_id : Z) (_data : gmap Z Vehicle) => _).
  set (vehicle_of := fun i : Z =>
         match start_data !! i, end_data !! i with
         | Some s, Some e => Some (mkVehicle s.1 e.1.1 e.1.2 e.2)
         | _, _ => None
         end).
  change (set_fold f ∅ (dom start_data ∩ dom end_data) !! id = vehicle_of id).
  set (P := fun (d : gmap Z Vehicle) (X : gset Z) =>
         X ⊆ dom start_data ∩ dom end_data ->
         d !! id = if decide (id ∈ X) then vehicle_of id else None).
  assert (forall X : gset Z, P (set_fold f ∅ X) X) as Hfold.
  { apply set_fold_ind_L; unfold P.
    - intros _. rewrite lookup_empty. now case_decide.
    - intros x Y d Hx IH Hsub.
      assert (x ∈ dom start_data ∩ dom end_data) as Hxin
        by (apply Hsub, elem_of_union_l, elem_of_singleton; reflexivity).
      assert (Y ⊆ dom start_data ∩ dom end_data) as HY
        by (intros y Hy; apply Hsub, elem_of_union_r, Hy).
      apply elem_of_intersection in Hxin as [[s Hs]%elem_of_dom [e He]%elem_of_dom].
      unfold f. rewrite Hs, He. rewrite lookup_insert.
      destruct (decide (x = id)) as [-> | Hne].
      + unfold vehicle_of. rewrite Hs, He.
        rewrite decide_True; [reflexivity |].
        apply elem_of_union_l, elem_of_singleton. reflexivity.
      + rewrite (IH HY).
        destruct (decide (id ∈ Y)) as [Hid | Hid].
        * rewrite decide_True; [reflexivity | now apply elem_of_union_r].
        * rewrite decide_False; [reflexivity |].
          intros [Hid'%elem_of_singleton | Hid']%elem_of_union; congruence. }
  rewrite (Hfold _) by reflexivity.
  case_decide as Hin; [reflexivity |].
  unfold vehicle_of.
  destruct (start_data !! id) as [s |] eqn:Hs; [| reflexivity].
  destruct (end_data !! id) as [e |] eqn:He; [| reflexivity].
  exfalso. apply Hin, elem_of_intersection. split; apply elem_of_dom; eauto.
Qed.

Lemma start_data_Some (cursor : list Row) (run : Z) (t : Q) (id : Z)
    (s : Point * string) :
  start_data_of (select_snapshot cursor run t) !! id = Some s ->
  exists r, observed cursor run t r /\ node_id r = id
            /\ mobility_posx r = Some (px s.1)
            /\ mobility_posy r = Some (py s.1).
Proof.
  rewrite start_data_of_foldl.
  intros [(row & Hin & Hk & Hv) | H]%foldl_insert_Some;
    [| now rewrite lookup_empty in H].
  apply elem_of_select_snapshot in Hin as (r & Hobs & Hid & _ & Hx & Hy & _).
  exists r. subst s. simpl. split; [exact Hobs | repeat split; congruence].
Qed.

Lemma end_data_Some (cursor : list Row) (run : Z) (t : Q) (id : Z)
    (e : Point * Q * string) :
  end_data_of (select_snapshot cursor run t) !! id = Some e ->
  exists r, observed cursor run t r /\ node_id r = id
            /\ mobility_posx r = Some (px e.1.1)
            /\ mobility_posy r = Some (py e.1.1)
            /\ appl_speed r = Some e.1.2
            /\ row_controller r = e.2.
Proof.
  rewrite end_data_of_foldl.
  intros [(row & Hin & Hk & Hv) | H]%foldl_insert_Some;
    [| now rewrite lookup_empty in H].
  apply elem_of_select_snapshot in Hin as (r & Hobs & Hid & Hc & Hx & Hy & Hs).
  exists r. subst e. simpl. split; [exact Hobs | repeat split; congruence].
Qed.

Lemma Snapshot_init_is_Some (cursor : list Row) (run : Z) (start end_ : Q) (id : Z) :
  is_Some (Snapshot_init cursor run start end_ !! id)
  <-> observed_at cursor run start id /\ observed_at cursor run end_ id.
Proof.
  rewrite Snapshot_init_lookup, <- start_data_is_Some, <- end_data_is_Some.
  split.
  - intros [v Hv].
    destruct (start_data_of _ !! id) as [s |]; [| discriminate].
    destruct (end_data_of _ !! id) as [e |]; [| discriminate].
    split; eauto.
  - intros [[s Hs] [e He]]. rewrite Hs, He. eauto.
Qed.

(** C4.  The snapshot of run [run] between [start] and [end_] holds a
    vehicle id exactly when the id has a row with position and speed at
    [start] and one at [end_]; the vehicle's previous position is that of a
    row at [start], and its current position, speed and controller are those
    of one row at [end_]; when no id is observed at both instants the
    snapshot is the empty one; an id missing at one of the two instants is
    not in the snapshot. *)
Theorem Snapshot_init_spec (cursor : list Row) (run : Z) (start end_ : Q) :
  let snapshot := Snapshot_init cursor run start end_ in
  (forall id : Z,
      is_Some (snapshot !! id)
      <-> observed_at cursor run start id /\ observed_at cursor run end_ id)
  /\ (forall (id : Z) (v : Vehicle),
         snapshot !! id = Some v ->
         exists rs re : Row,
           observed cursor run start rs /\ node_id rs = id
           /\ observed cursor run end_ re /\ node_id re = id
           /\ mobility_posx rs = Some (px (prev_pos v))
           /\ mobility_posy rs = Some (py (prev_pos v))
           /\ mobility_posx re = Some (px (curr_pos v))
           /\ mobility_posy re = Some (py (curr_pos v))
           /\ appl_speed re = Some (speed v)
           /\ row_controller re = controller v)
  /\ ((forall id : Z,
          ~ (observed_at cursor run start id /\ observed_at cursor run end_ id))
      -> snapshot = ∅)
  /\ (forall id : Z,
         ~ observed_at cursor run start id \/ ~ observed_at cursor run end_ id ->
         snapshot !! id = None).
Proof.
  intros snapshot. subst snapshot.
  split; [apply Snapshot_init_is_Some |].
  split; [| split].
  - intros id v Hv. rewrite Snapshot_init_lookup in Hv.
    destruct (start_data_of _ !! id) as [s |] eqn:Hs; [| discriminate].
    destruct (end_data_of _ !! id) as [e |] eqn:He; [| discriminate].
    injection Hv as <-. simpl.
    apply start_data_Some in Hs as (rs & Hos & Hids & Hxs & Hys).
    apply end_data_Some in He as (re & Hoe & Hide & Hxe & Hye & Hse & Hce).
    exists rs, re. tauto.
  - intros Hnone. apply map_empty. intros id.
    apply eq_None_not_Some. rewrite Snapshot_init_is_Some. apply Hnone.
  - intros id Hmiss. apply eq_None_not_Some. rewrite Snapshot_init_is_Some.
    tauto.
Qed.

(** ** Distance to a line string *)

Lemma segment_distance2_nonneg (p a b : Point) : 0 <= segment_distance2 p a b.
Proof.
  unfold segment_distance2.
  destruct (Qeq_bool (distance2 a b) 0); apply distance2_nonneg.
Qed.

Lemma clamp01_id (t : Q) : 0 <= t -> t <= 1 -> clamp01 t == t.
Proof.
  intros H0 H1. unfold clamp01.
  rewrite (Q.min_r 1 t) by exact H1. now apply Q.max_r.
Qed.

#[local] Instance clamp01_proper : Proper (Qeq ==> Qeq) clamp01.
Proof. intros x y E. unfold clamp01. now rewrite E. Qed.

Lemma segment_distance2_on_segment (p a b : Point) :
  on_segment p a b -> segment_distance2 p a b == 0.
Proof.
  intros (t & H0 & H1 & Hx & Hy). unfold segment_distance2. cbv zeta.
  destruct (Qeq_bool (distance2 a b) 0) eqn:Hlen.
  - apply Qeq_bool_iff in Hlen. unfold distance2, sq in *.
    rewrite Hx, Hy.
    transitivity (t * t * ((px a - px b) * (px a - px b)
                           + (py a - py b) * (py a - py b))); [ring |].
    rewrite Hlen. ring.
  - apply Qeq_bool_neq in Hlen.
    assert (((px p - px a) * (px b - px a) + (py p - py a) * (py b - py a))
            / distance2 a b == t) as Ht.
    { rewrite Hx, Hy. unfold distance2, sq in *. field. exact Hlen. }
    unfold distance2 at 1. unfold sq. simpl.
    rewrite Ht, (clamp01_id t H0 H1), Hx, Hy. ring.
Qed.

Lemma path_distance2_le_best (p a : Point) (rest : list Point) (best : Q) :
  path_distance2 p a rest best <= best.
Proof.
  revert a best. induction rest as [| b rest IH]; intros a best; simpl.
  - apply Qle_refl.
  - eapply Qle_trans; [apply IH | apply Q.le_min_l].
Qed.

Lemma path_distance2_nonneg (p a : Point) (rest : list Point) (best : Q) :
  0 <= best -> 0 <= path_distance2 p a rest best.
Proof.
  revert a best. induction rest as [| b rest IH]; intros a best Hb; simpl.
  - exact Hb.
  - apply IH, Q.min_glb; [exact Hb | apply segment_distance2_nonneg].
Qed.

Lemma path_distance2_le_segment (p a : Point) (rest : list Point) (best : Q)
    (x y : Point) :
  (x, y) ∈ zip (a :: rest) rest ->
  path_distance2 p a rest best <= segment_distance2 p x y.
Proof.
  revert a best. induction rest as [| b rest IH]; intros a best Hin; simpl in *.
  - now apply elem_of_nil in Hin.
  - apply elem_of_cons in Hin as [[= -> ->] | Hin].
    + eapply Qle_trans; [apply path_distance2_le_best | apply Q.le_min_r].
    + now apply IH.
Qed.

Lemma linestring_distance2_nonneg (ls : LineString) (p : Point) :
  0 <= linestring_distance2 ls p.
Proof. apply path_distance2_nonneg, segment_distance2_nonneg. Qed.

Lemma linestring_distance2_le_segment (ls : LineString) (p x y : Point) :
  (x, y) ∈ segments ls ->
  linestring_distance2 ls p <= segment_distance2 p x y.
Proof.
  unfold segments, coords, linestring_distance2. simpl.
  intros [[= -> ->] | Hin]%elem_of_cons.
  - apply path_distance2_le_best.
  - now apply path_distance2_le_segment.
Qed.

(** A point of the polyline is at distance zero from it. *)
Lemma linestring_distance2_on_linestring (ls : LineString) (p : Point) :
  on_linestring ls p -> linestring_distance2 ls p == 0.
Proof.
  intros (a & b & Hin & Hon).
  apply Qle_antisym; [| apply linestring_distance2_nonneg].
  rewrite <- (segment_distance2_on_segment p a b Hon).
  now apply linestring_distance2_le_segment.
Qed.

Lemma clamp01_bounds (t : Q) : 0 <= clamp01 t /\ clamp01 t <= 1.
Proof.
  unfold clamp01. split; [apply Q.le_max_l |].
  apply Q.max_lub; [discriminate | apply Q.le_min_l].
Qed.

Lemma segment_distance2_zero (p a b : Point) :
  segment_distance2 p a b == 0 -> on_segment p a b.
Proof.
  unfold segment_distance2. cbv zeta.
  destruct (Qeq_bool (distance2 a b) 0).
  - intros [Hx Hy]%distance2_zero_iff. exists 0.
    split; [discriminate |]. split; [discriminate |].
    split; [rewrite Hx | rewrite Hy]; ring.
  - set (t := clamp01 _). intros [Hx Hy]%distance2_zero_iff.
    simpl in Hx, Hy. destruct (clamp01_bounds
      (((px p - px a) * (px b - px a) + (py p - py a) * (py b - py a))
       / distance2 a b)) as [H0 H1].
    exists t. auto.
Qed.

(** The distance to a polyline is the distance to one of its segments. *)
Lemma path_distance2_attained (p a : Point) (rest : list Point) (best : Q) :
  path_distance2 p a rest best == best
  \/ exists x y : Point,
       (x, y) ∈ zip (a :: rest) rest
       /\ path_distance2 p a rest best == segment_distance2 p x y.
Proof.
  revert a best. induction rest as [| b rest IH]; intros a best.
  - left. reflexivity.
  - change (path_distance2 p a (b :: rest) best)
      with (path_distance2 p b rest (Qmin best (segment_distance2 p a b))).
    change (zip (a :: b :: rest) (b :: rest))
      with ((a, b) :: zip (b :: rest) rest).
    destruct (IH b (Qmin best (segment_distance2 p a b)))
      as [E | (x & y & Hin & E)].
    + destruct (Q.min_dec best (segment_distance2 p a b)) as [Em | Em].
      * left. now rewrite E.
      * right. exists a, b. split; [apply list_elem_of_here |]. now rewrite E.
    + right. exists x, y. split; [now apply list_elem_of_further | exact E].
Qed.

Lemma linestring_distance2_attained (ls : LineString) (p : Point) :
  exists x y : Point,
    (x, y) ∈ segments ls
    /\ linestring_distance2 ls p == segment_distance2 p x y.
Proof.
  unfold segments, coords, linestring_distance2.
  change (zip (ls_first ls :: ls_second ls :: ls_rest ls)
              (tail (ls_first ls :: ls_second ls :: ls_rest ls)))
    with ((ls_first ls, ls_second ls)
          :: zip (ls_second ls :: ls_rest ls) (ls_rest ls)).
  destruct (path_distance2_attained p (ls_second ls) (ls_rest ls)
              (segment_distance2 p (ls_first ls) (ls_second ls)))
    as [E | (x & y & Hin & E)].
  - exists (ls_first ls), (ls_second ls).
    split; [apply list_elem_of_here | exact E].
  - exists x, y. split; [now apply list_elem_of_further | exact E].
Qed.

(** The points at distance zero from a polyline are its points. *)
Lemma linestring_distance2_zero_iff (ls : LineString) (p : Point) :
  linestring_distance2 ls p == 0 <-> on_linestring ls p.
Proof.
  split; [| apply linestring_distance2_on_linestring].
  intros Hzero.
  destruct (linestring_distance2_attained ls p) as (x & y & Hin & E).
  exists x, y. split; [exact Hin |].
  apply segment_distance2_zero. now rewrite <- E.
Qed.

Lemma linestring_distance_zero (ls : LineString) (p : Point) :
  linestring_distance2 ls p == 0 <-> linestring_distance ls p = 0%R.
Proof.
  unfold linestring_distance. split.
  - intros E. rewrite (Qeq_eqR _ _ E), RMicromega.Q2R_0. apply sqrt_0.
  - intros E. apply sqrt_eq_0 in E.
    + apply eqR_Qeq. now rewrite RMicromega.Q2R_0.
    + rewrite <- RMicromega.Q2R_0. apply Qle_Rle, linestring_distance2_nonneg.
Qed.

Lemma linestring_distance_le (l1 l2 : LineString) (p : Point) :
  linestring_distance2 l1 p <= linestring_distance2 l2 p
  <-> (linestring_distance l1 p <= linestring_distance l2 p)%R.
Proof.
  unfold linestring_distance.
  pose proof (Qle_Rle _ _ (linestring_distance2_nonneg l1 p)) as H1.
  pose proof (Qle_Rle _ _ (linestring_distance2_nonneg l2 p)) as H2.
  rewrite RMicromega.Q2R_0 in H1, H2.
  split; intros H.
  - apply sqrt_le_1_alt. now apply Qle_Rle.
  - apply Rle_Qle. now apply sqrt_le_0.
Qed.

Lemma distance_gt_iff (ls : LineString) (p : Point) (threshold : Q) :
  distance_gt (linestring_distance2 ls p) threshold = true
  <-> (linestring_distance ls p > Q2R threshold)%R.
Proof.
  unfold distance_gt, linestring_distance.
  rewrite orb_true_iff, !Qltb_lt.
  pose proof (sqrt_Q2R_le (linestring_distance2 ls p) threshold
                (linestring_distance2_nonneg ls p)) as Hle.
  split.
  - intros H. apply Rnot_le_gt. rewrite Hle. intros [H0 H1].
    destruct H as [H | H]; [now apply (Qlt_not_le _ _ H) |
                            now apply (Qlt_not_le _ _ H)].
  - intros H. apply Rgt_not_le in H. rewrite Hle in H.
    destruct (Qlt_le_dec threshold 0) as [Hneg | Hpos]; [now left |].
    right. apply Qnot_le_lt. tauto.
Qed.

(** ** The lane lookup *)

Lemma nearest_from_le_best (p : Point) (best : Lane) (lanes : list Lane) :
  linestring_distance2 (lane_points (nearest_from p best lanes)) p
  <= linestring_distance2 (lane_points best) p.
Proof.
  revert best. induction lanes as [| l lanes IH]; intros best; simpl.
  - apply Qle_refl.
  - eapply Qle_trans; [apply IH |].
    destruct (Qltb _ _) eqn:Hlt; [| apply Qle_refl].
    apply Qltb_lt in Hlt. now apply Qlt_le_weak.
Qed.

Lemma nearest_from_le (p : Point) (best : Lane) (lanes : list Lane) (l : Lane) :
  l ∈ best :: lanes ->
  linestring_distance2 (lane_points (nearest_from p best lanes)) p
  <= linestring_distance2 (lane_points l) p.
Proof.
  revert best. induction lanes as [| l' lanes IH]; intros best Hin.
  - apply list_elem_of_singleton in Hin as ->. apply Qle_refl.
  - simpl. apply elem_of_cons in Hin as [-> | Hin].
    + eapply Qle_trans; [apply nearest_from_le_best |].
      destruct (Qltb _ _) eqn:Hlt; [| apply Qle_refl].
      apply Qltb_lt in Hlt. now apply Qlt_le_weak.
    + apply elem_of_cons in Hin as [-> | Hin].
      * eapply Qle_trans; [apply nearest_from_le_best |].
        destruct (Qltb _ _) eqn:Hlt; [apply Qle_refl |].
        apply not_true_iff_false in Hlt. rewrite Qltb_lt in Hlt.
        now apply Qnot_lt_le.
      * apply IH. now apply list_elem_of_further.
Qed.

Lemma nearest_from_elem_of (p : Point) (best : Lane) (lanes : list Lane) :
  nearest_from p best lanes ∈ best :: lanes.
Proof.
  revert best. induction lanes as [| l lanes IH]; intros best; simpl.
  - apply list_elem_of_here.
  - specialize (IH (if Qltb (linestring_distance2 (lane_points l) p)
                            (linestring_distance2 (lane_points best) p)
                    then l else best)).
    apply elem_of_cons in IH as [-> | IH].
    + destruct (Qltb _ _); [apply list_elem_of_further |]; apply list_elem_of_here.
    + now do 2 apply list_elem_of_further.
Qed.

(** [STRtree.nearest] answers with a lane of the tree at the least
    distance, and answers whenever the tree has a lane. *)
Lemma STRtree_nearest_spec (lanes : list Lane) (p : Point) (nearest : Lane) :
  STRtree_nearest lanes p = Some nearest ->
  nearest ∈ lanes
  /\ forall l, l ∈ lanes ->
       linestring_distance2 (lane_points nearest) p
       <= linestring_distance2 (lane_points l) p.
Proof.
  destruct lanes as [| best lanes]; [discriminate |].
  intros [= <-]. split; [apply nearest_from_elem_of |].
  intros l. apply nearest_from_le.
Qed.

Lemma STRtree_nearest_is_Some (lanes : list Lane) (p : Point) :
  lanes <> [] <-> is_Some (STRtree_nearest lanes p).
Proof.
  destruct lanes as [| best lanes]; simpl.
  - split; [congruence | intros [? [=]]].
  - split; [eauto | discriminate].
Qed.

Lemma EdgeLookup_find_nearest (netfile : list Lane) (xformer : CoordTransformer)
    (pos : Point) (threshold : Q) (nearest : Lane) :
  STRtree_nearest netfile (omnet2traci xformer pos) = Some nearest ->
  EdgeLookup_find (EdgeLookup_init netfile xformer) pos threshold
  = if distance_gt (linestring_distance2 (lane_points nearest)
                                         (omnet2traci xformer pos)) threshold
    then Raise ValueError else Ok nearest.
Proof. unfold EdgeLookup_find. simpl. now intros ->. Qed.

(** C5.  For every position, every network with a lane and every
    tolerance, [find] moves the position to the network plane and selects
    a lane of the network at the least distance from the moved position.
    It raises [ValueError] exactly when the distance from the moved
    position to the selected lane exceeds the tolerance, which is when
    every lane of the network is farther than the tolerance, and returns
    the selected lane exactly when it does not.  When the moved position
    is a point of the polyline of a lane, the selected lane has the
    position on its polyline, at distance zero, and [find] returns it
    without an error for the default tolerance 0.1 and for every other
    tolerance that is not negative; it is the lane in question when no
    other lane of the network passes through the position. *)
Theorem EdgeLookup_find_spec (netfile : list Lane) (xformer : CoordTransformer)
    (pos : Point) (threshold : Q) :
  netfile <> [] ->
  let self := EdgeLookup_init netfile xformer in
  let traciPos := omnet2traci xformer pos in
  exists nearest : Lane,
    STRtree_nearest netfile traciPos = Some nearest
    /\ nearest ∈ netfile
    /\ (forall l : Lane, l ∈ netfile ->
          (linestring_distance (lane_points nearest) traciPos
           <= linestring_distance (lane_points l) traciPos)%R)
    /\ (EdgeLookup_find self pos threshold = Raise ValueError
        <-> (linestring_distance (lane_points nearest) traciPos
             > Q2R threshold)%R)
    /\ (EdgeLookup_find self pos threshold = Raise ValueError
        <-> forall l : Lane, l ∈ netfile ->
              (linestring_distance (lane_points l) traciPos > Q2R threshold)%R)
    /\ (EdgeLookup_find self pos threshold = Ok nearest
        <-> (linestring_distance (lane_points nearest) traciPos
             <= Q2R threshold)%R)
    /\ (forall l : Lane,
           l ∈ netfile -> on_linestring (lane_points l) traciPos ->
           on_linestring (lane_points nearest) traciPos
           /\ linestring_distance (lane_points nearest) traciPos = 0%R
           /\ EdgeLookup_find self pos default_threshold = Ok nearest
           /\ (0 <= threshold -> EdgeLookup_find self pos threshold = Ok nearest)
           /\ ((forall l' : Lane,
                   l' ∈ netfile -> on_linestring (lane_points l') traciPos ->
                   l' = l)
               -> nearest = l)).
Proof.
  intros Hlanes self traciPos. subst self.
  destruct (proj1 (STRtree_nearest_is_Some netfile traciPos) Hlanes)
    as [nearest Hn].
  destruct (STRtree_nearest_spec _ _ _ Hn) as [Hin Hle].
  assert (forall t : Q,
             (EdgeLookup_find (EdgeLookup_init netfile xformer) pos t
              = Raise ValueError
              <-> (linestring_distance (lane_points nearest) traciPos > Q2R t)%R)
             /\ (EdgeLookup_find (EdgeLookup_init netfile xformer) pos t
                 = Ok nearest
                 <-> (linestring_distance (lane_points nearest) traciPos
                      <= Q2R t)%R)) as Hdecide.
  { intros t. rewrite (EdgeLookup_find_nearest _ _ _ _ _ Hn). fold traciPos.
    pose proof (distance_gt_iff (lane_points nearest) traciPos t) as Hgt.
    destruct (distance_gt _ _).
    - assert (linestring_distance (lane_points nearest) traciPos > Q2R t)%R
        as H by now apply Hgt.
      split; split; try easy.
      intros Hle'. exfalso. now apply (Rgt_not_le _ _ H).
    - assert (~ (linestring_distance (lane_points nearest) traciPos > Q2R t)%R)
        as H by (intros H; now apply Hgt in H).
      split; split; try easy.
      intros _. now apply Rnot_gt_le. }
  assert (forall l : Lane, l ∈ netfile ->
             (linestring_distance (lane_points nearest) traciPos
              <= linestring_distance (lane_points l) traciPos)%R) as Hleast
    by (intros l Hl; now apply linestring_distance_le, Hle).
  exists nearest. split; [exact Hn |]. split; [exact Hin |].
  split; [exact Hleast |].
  split; [apply Hdecide |]. split.
  { rewrite (proj1 (Hdecide threshold)). split.
    - intros Hgt l Hl. eapply Rlt_le_trans; [exact Hgt | now apply Hleast].
    - intros Hall. now apply Hall. }
  split; [apply Hdecide |].
  intros l Hl Hon.
  assert (linestring_distance2 (lane_points nearest) traciPos == 0) as Hzero.
  { apply Qle_antisym; [| apply linestring_distance2_nonneg].
    rewrite <- (linestring_distance2_on_linestring _ _ Hon). now apply Hle. }
  pose proof (proj1 (linestring_distance2_zero_iff _ _) Hzero) as Hon'.
  apply linestring_distance_zero in Hzero.
  assert (forall t : Q,
             0 <= t ->
             EdgeLookup_find (EdgeLookup_init netfile xformer) pos t = Ok nearest)
    as Hok.
  { intros t Ht. apply Hdecide. rewrite Hzero, <- RMicromega.Q2R_0.
    now apply Qle_Rle. }
  split; [exact Hon' |]. split; [exact Hzero |].
  split; [apply Hok; discriminate |]. split; [apply Hok |].
  intros Huniq. now apply Huniq.
Qed.

(** Lane [a_0] ends at [(10,0)], where lane [b_0] starts.  For this point,
    a point of both polylines, [find] returns a lane through the point, at
    distance zero. *)
Lemma EdgeLookup_find_spec_witness :
  let xformer := CoordTransformer_init (mkPoint 0 0) (mkPoint 20 0) 0 in
  let a_0 := mkLane (Some "a"%string) "a_0"%string 0 (139 # 10) 10
                    (mkLineString (mkPoint 0 0) (mkPoint 10 0) []) in
  let b_0 := mkLane (Some "b"%string) "b_0"%string 0 (139 # 10) 10
                    (mkLineString (mkPoint 10 0) (mkPoint 20 0) []) in
  let pos := mkPoint 10 0 in
  exists nearest : Lane,
    EdgeLookup_find (EdgeLookup_init [a_0; b_0] xformer) pos default_threshold
    = Ok nearest
    /\ on_linestring (lane_points nearest) (omnet2traci xformer pos)
    /\ linestring_distance (lane_points nearest) (omnet2traci xformer pos) = 0%R.
Proof.
  intros xformer a_0 b_0 pos.
  destruct (EdgeLookup_find_spec [a_0; b_0] xformer pos default_threshold)
    as (nearest & _ & _ & _ & _ & _ & _ & Hon); [discriminate |].
  destruct (Hon a_0) as (Hnearest & Hzero & Hfind & _).
  - apply list_elem_of_here.
  - exists (mkPoint 0 0), (mkPoint 10 0). split; [apply list_elem_of_here |].
    exists 1. split; [discriminate |]. split; [discriminate |].
    split; reflexivity.
  - exists nearest. split; [exact Hfind |]. split; [exact Hnearest | exact Hzero].
Defined.

(** On a lane that no other lane touches, the lookup of a point of the
    lane returns that lane. *)
Example EdgeLookup_find_on_lane :
  let xformer := CoordTransformer_init (mkPoint 0 0) (mkPoint 20 0) 0 in
  let a_0 := mkLane (Some "a"%string) "a_0"%string 0 (139 # 10) 10
                    (mkLineString (mkPoint 0 0) (mkPoint 10 0) []) in
  let c_0 := mkLane (Some "c"%string) "c_0"%string 0 (139 # 10) 10
                    (mkLineString (mkPoint 0 5) (mkPoint 10 5) []) in
  let self := EdgeLookup_init [a_0; c_0] xformer in
  EdgeLookup_find self (mkPoint 4 0) default_threshold = Ok a_0
  /\ EdgeLookup_find self (mkPoint 4 (-5)) default_threshold = Ok c_0
  /\ EdgeLookup_find self (mkPoint 4 (-1)) default_threshold = Raise ValueError.
Proof. repeat split; vm_compute; reflexivity. Qed.

(** ** The detection loop *)

Section Emits.

Lemma emits_ret : emits (mret tt) [].
Proof. intros table. reflexivity. Qed.

Lemma emits_insert (row : Collision) : emits (execute_insert row) [row].
Proof. intros table. reflexivity. Qed.

Lemma emits_bind (m : M unit) (k : unit -> M unit) (l1 l2 : list Collision) :
  emits m l1 -> emits (k tt) l2 -> emits (m ≫= k) (l1 ++ l2).
Proof.
  intros H1 H2 table. unfold mbind, M_bind. rewrite H1, H2.
  now rewrite foldl_app.
Qed.

Lemma emits_lift_Ok {A : Type} (a : A) (k : A -> M unit) (l : list Collision) :
  emits (k a) l -> emits (lift (Ok a) ≫= k) l.
Proof. intros H table. unfold mbind, M_bind, lift. apply H. Qed.

Lemma emits_for_each {A : Type} (l : list A) (body : A -> M unit)
    (records : A -> list Collision) :
  (forall x, x ∈ l -> emits (body x) (records x)) ->
  emits (for_each l body) (flat_map records l).
Proof.
  induction l as [| x l IH]; intros H; simpl.
  - apply emits_ret.
  - apply emits_bind.
    + apply H, list_elem_of_here.
    + apply IH. intros y Hy. now apply H, list_elem_of_further.
Qed.

Lemma emits_for_each_omap {A : Type} (l : list A) (body : A -> M unit)
    (record : A -> option Collision) :
  (forall x, x ∈ l -> emits (body x) (option_list (record x))) ->
  emits (for_each l body) (omap record l).
Proof.
  induction l as [| x l IH]; intros H.
  - apply emits_ret.
  - assert (omap record (x :: l) = option_list (record x) ++ omap record l)
      as -> by (simpl; now destruct (record x)).
    change (for_each (x :: l) body) with (body x ≫= fun _ => for_each l body).
    apply emits_bind.
    + apply H, list_elem_of_here.
    + apply IH. intros y Hy. now apply H, list_elem_of_further.
Qed.

End Emits.

(** The things [find] returns are things of the helper. *)
Lemma ProximityHelper_find_elem_of (self : list (Z * Point)) (pos : Point)
    (threshold : Q) (row : Z * Point) :
  row ∈ ProximityHelper_find self pos threshold
  <-> row ∈ self /\ in_buffer_extent pos threshold row.2 = true.
Proof.
  unfold ProximityHelper_find. rewrite !list_elem_of_In. apply filter_In.
Qed.

Lemma ProximityHelper_init_elem_of (data : list (Z * Point)) (row : Z * Point) :
  row ∈ ProximityHelper_init data -> row ∈ data.
Proof.
  unfold ProximityHelper_init, dict_of.
  intros H%elem_of_map_to_list'.
  apply (foldl_insert_Some fst snd) in H as [(row' & Hin & Hk & Hv) | H].
  - destruct row, row'. simpl in *. now subst.
  - now rewrite lookup_empty in H.
Qed.

(** A candidate of the proximity query over a snapshot is a vehicle of the
    snapshot, with its current position. *)
Lemma candidate_in_snapshot (snapshot : gmap Z Vehicle) (pos : Point)
    (threshold : Q) (row : Z * Point) :
  row ∈ ProximityHelper_find (ProximityHelper_init (Snapshot_end snapshot))
          pos threshold ->
  exists w : Vehicle, snapshot !! row.1 = Some w /\ curr_pos w = row.2.
Proof.
  intros [H _]%ProximityHelper_find_elem_of.
  apply ProximityHelper_init_elem_of in H. unfold Snapshot_end in H.
  apply list_elem_of_fmap in H as ([id w] & -> & Hin).
  apply elem_of_map_to_list in Hin. exists w. now split.
Qed.

Lemma check_nearby_emits (edge_lookup : EdgeLookup) (snapshot : gmap Z Vehicle)
    (curr_instant : Q) (vehicle_id : Z) (vehicle : Vehicle) (lane : Lane)
    (nearby : Z * Point) :
  resolves edge_lookup snapshot ->
  EdgeLookup_find edge_lookup (curr_pos vehicle) default_threshold = Ok lane ->
  is_Some (snapshot !! nearby.1) ->
  emits (check_nearby edge_lookup snapshot curr_instant vehicle_id vehicle
                      (lane_id lane) nearby)
        (option_list (spec_record edge_lookup snapshot curr_instant
                                  vehicle_id vehicle nearby.1)).
Proof.
  intros Hres Hlane [w Hw]. unfold check_nearby, spec_record, Snapshot_get.
  destruct (nearby.1 =? vehicle_id)%Z; [apply emits_ret |].
  rewrite Hw. simpl. unfold lane_id_at. rewrite Hlane. simpl.
  destruct (Hres _ _ Hw) as [wlane Hwlane]. rewrite Hwlane. simpl.
  apply emits_lift_Ok.
  destruct (String.eqb (lane_id wlane) (lane_id lane)); simpl;
    [| apply emits_ret].
  destruct (is_following _ _ _ _); simpl; [apply emits_insert | apply emits_ret].
Qed.

Lemma check_vehicle_emits (edge_lookup : EdgeLookup) (ttc : Q)
    (snapshot : gmap Z Vehicle) (curr_instant : Q) (item : Z * Vehicle) :
  resolves edge_lookup snapshot ->
  item ∈ Snapshot_items snapshot ->
  emits (check_vehicle edge_lookup ttc snapshot
                       (ProximityHelper_init (Snapshot_end snapshot))
                       curr_instant item)
        (spec_vehicle_records edge_lookup ttc snapshot curr_instant item).
Proof.
  intros Hres Hitem. unfold check_vehicle, spec_vehicle_records.
  apply elem_of_map_to_list' in Hitem.
  destruct (Hres _ _ Hitem) as [lane Hlane]. rewrite Hlane.
  apply emits_lift_Ok, emits_for_each_omap.
  intros nearby Hnearby. apply check_nearby_emits; [exact Hres | exact Hlane |].
  destruct (candidate_in_snapshot _ _ _ _ Hnearby) as (w & Hw & _). eauto.
Qed.

Lemma check_instants_emits (edge_lookup : EdgeLookup) (args : Args)
    (results : list Row) (pair : Q * Q) :
  resolves edge_lookup
    (Snapshot_init results (args_run_id args) pair.1 pair.2) ->
  emits (check_instants edge_lookup args results pair)
        (spec_pair_records edge_lookup args results pair).
Proof.
  intros Hres. unfold check_instants, spec_pair_records.
  apply emits_for_each. intros item Hitem. now apply check_vehicle_emits.
Qed.

(** C1.  With both time bounds given and every vehicle of every snapshot on
    a lane, [main] ends without an exception and has inserted into
    [collisions] the records of the specification and no others: for each
    pair of consecutive instants, each vehicle [v] of the snapshot and each
    candidate [w] of the proximity query around [v]'s current position with
    radius [speed * ttc], nothing for [w = v], nothing when the lane of [w]
    is not the lane of [v], nothing when [v] does not follow [w], and
    otherwise the record with leader [w], follower [v], the later instant
    and the lane of [v]. *)
Theorem main_emits_spec_records (args : Args) (netfile : list Lane)
    (results : list Row) (table : list Collision) :
  is_Some (args_start_time args) ->
  is_Some (args_end_time args) ->
  (forall pair : Q * Q,
      pair ∈ snapshot_pairs args results ->
      resolves (EdgeLookup_init netfile (main_xformer args))
               (Snapshot_init results (args_run_id args) pair.1 pair.2)) ->
  main args netfile results table
  = (foldl insert_or_ignore table (spec_records args netfile results), Ok tt).
Proof.
  intros [lo Hlo] [hi Hhi] Hres. revert table.
  change (emits (main args netfile results) (spec_records args netfile results)).
  unfold main, spec_records. rewrite Hlo, Hhi. simpl.
  do 2 apply emits_lift_Ok.
  apply emits_for_each. intros pair Hpair.
  apply check_instants_emits, Hres. exact Hpair.
Qed.

(** ** The table of collisions *)

Section Table.

Lemma same_key_iff (a b : Collision) :
  same_key a b = true
  <-> leader_node_id a = leader_node_id b
      /\ follower_node_id a = follower_node_id b
      /\ collision_seconds a == collision_seconds b.
Proof.
  unfold same_key. rewrite !andb_true_iff, !Z.eqb_eq, Qeq_bool_iff. tauto.
Qed.

Lemma same_key_refl (a : Collision) : same_key a a = true.
Proof.
  apply same_key_iff.
  split; [reflexivity | split; [reflexivity | apply Qeq_refl]].
Qed.

Lemma same_key_sym (a b : Collision) : same_key a b = same_key b a.
Proof.
  apply eq_true_iff_eq. rewrite !same_key_iff.
  split; intros (H1 & H2 & H3); repeat split; auto; now symmetry.
Qed.

Lemma insert_or_ignore_present (table : list Collision) (row : Collision) :
  existsb (same_key row) table = true -> insert_or_ignore table row = table.
Proof. unfold insert_or_ignore. now intros ->. Qed.

Lemma present_after_insert (table : list Collision) (row : Collision) :
  existsb (same_key row) (insert_or_ignore table row) = true.
Proof.
  unfold insert_or_ignore.
  destruct (existsb (same_key row) table) eqn:H; [exact H |].
  rewrite existsb_app. simpl. now rewrite same_key_refl, orb_true_r.
Qed.

Lemma present_insert_mono (table : list Collision) (row row' : Collision) :
  existsb (same_key row) table = true ->
  existsb (same_key row) (insert_or_ignore table row') = true.
Proof.
  intros H. unfold insert_or_ignore.
  destruct (existsb (same_key row') table); [exact H |].
  rewrite existsb_app, H. reflexivity.
Qed.

Lemma present_foldl_mono (records : list Collision) (table : list Collision)
    (row : Collision) :
  existsb (same_key row) table = true ->
  existsb (same_key row) (foldl insert_or_ignore table records) = true.
Proof.
  revert table. induction records as [| r records IH]; intros table H; simpl.
  - exact H.
  - now apply IH, present_insert_mono.
Qed.

Lemma present_after_foldl (records : list Collision) (table : list Collision)
    (row : Collision) :
  row ∈ records ->
  existsb (same_key row) (foldl insert_or_ignore table records) = true.
Proof.
  revert table. induction records as [| r records IH]; intros table Hin; simpl.
  - now apply elem_of_nil in Hin.
  - apply elem_of_cons in Hin as [-> | Hin].
    + apply present_foldl_mono, present_after_insert.
    + now apply IH.
Qed.

Lemma foldl_insert_present (records : list Collision) (table : list Collision) :
  (forall row, row ∈ records -> existsb (same_key row) table = true) ->
  foldl insert_or_ignore table records = table.
Proof.
  induction records as [| r records IH]; intros H; simpl; [reflexivity |].
  rewrite insert_or_ignore_present by apply H, list_elem_of_here.
  apply IH. intros row Hrow. now apply H, list_elem_of_further.
Qed.

(** Inserting the same rows a second time changes nothing. *)
Lemma foldl_insert_twice (records : list Collision) (table : list Collision) :
  foldl insert_or_ignore (foldl insert_or_ignore table records) records
  = foldl insert_or_ignore table records.
Proof.
  apply foldl_insert_present. intros row. apply present_after_foldl.
Qed.

Lemma unique_keys_app_one (table : list Collision) (row : Collision) :
  unique_keys table = true ->
  existsb (same_key row) table = false ->
  unique_keys (table ++ [row]) = true.
Proof.
  induction table as [| x table IH]; simpl; [reflexivity |].
  rewrite !andb_true_iff, !negb_true_iff, orb_false_iff.
  intros [Hx Hu] [Hrx Hr]. split.
  - rewrite existsb_app, Hx. simpl.
    now rewrite orb_false_r, same_key_sym.
  - now apply IH.
Qed.

Lemma unique_keys_insert (table : list Collision) (row : Collision) :
  unique_keys table = true -> unique_keys (insert_or_ignore table row) = true.
Proof.
  intros H. unfold insert_or_ignore.
  destruct (existsb (same_key row) table) eqn:Hex; [exact H |].
  now apply unique_keys_app_one.
Qed.

Lemma unique_keys_foldl (records : list Collision) (table : list Collision) :
  unique_keys table = true ->
  unique_keys (foldl insert_or_ignore table records) = true.
Proof.
  revert table. induction records as [| r records IH]; intros table H; simpl.
  - exact H.
  - now apply IH, unique_keys_insert.
Qed.

End Table.

Section Inserts.

Lemma inserts_ret {A : Type} (a : A) : inserts (mret a).
Proof. exists [], (Ok a). reflexivity. Qed.

Lemma inserts_lift {A : Type} (r : result A) : inserts (lift r).
Proof. exists [], r. reflexivity. Qed.

Lemma inserts_raise {A : Type} (e : Exception) : inserts (raise (A := A) e).
Proof. exists [], (Raise e). reflexivity. Qed.

Lemma inserts_execute_insert (row : Collision) : inserts (execute_insert row).
Proof. exists [row], (Ok tt). reflexivity. Qed.

Lemma inserts_bind {A B : Type} (m : M A) (k : A -> M B) :
  inserts m -> (forall a, inserts (k a)) -> inserts (m ≫= k).
Proof.
  intros (l1 & r & Hm) Hk. destruct r as [a | e].
  - destruct (Hk a) as (l2 & r2 & Hka). exists (l1 ++ l2), r2.
    intros table. unfold mbind, M_bind. now rewrite Hm, Hka, foldl_app.
  - exists l1, (Raise e). intros table. unfold mbind, M_bind. now rewrite Hm.
Qed.

Lemma inserts_for_each {A : Type} (l : list A) (body : A -> M unit) :
  (forall x, inserts (body x)) -> inserts (for_each l body).
Proof.
  intros H. induction l as [| x l IH]; simpl.
  - apply inserts_ret.
  - apply inserts_bind; [apply H | intros _; exact IH].
Qed.

Lemma inserts_check_nearby (edge_lookup : EdgeLookup) (snapshot : gmap Z Vehicle)
    (curr_instant : Q) (vehicle_id : Z) (vehicle : Vehicle)
    (vehicle_lane_id : string) (nearby : Z * Point) :
  inserts (check_nearby edge_lookup snapshot curr_instant vehicle_id vehicle
                        vehicle_lane_id nearby).
Proof.
  unfold check_nearby.
  destruct (nearby.1 =? vehicle_id)%Z; [apply inserts_ret |].
  destruct (Snapshot_get snapshot nearby.1) as [w |]; [| apply inserts_raise].
  apply inserts_bind; [apply inserts_lift |]. intros nearby_lane.
  destruct (negb (String.eqb _ _)); [apply inserts_ret |].
  destruct (negb (is_following _ _ _ _));
    [apply inserts_ret | apply inserts_execute_insert].
Qed.

Lemma inserts_check_vehicle (edge_lookup : EdgeLookup) (ttc : Q)
    (snapshot : gmap Z Vehicle) (ph : list (Z * Point)) (curr_instant : Q)
    (item : Z * Vehicle) :
  inserts (check_vehicle edge_lookup ttc snapshot ph curr_instant item).
Proof.
  unfold check_vehicle. apply inserts_bind; [apply inserts_lift |].
  intros lane. apply inserts_for_each. intros nearby.
  apply inserts_check_nearby.
Qed.

Lemma inserts_check_instants (edge_lookup : EdgeLookup) (args : Args)
    (results : list Row) (pair : Q * Q) :
  inserts (check_instants edge_lookup args results pair).
Proof.
  unfold check_instants. apply inserts_for_each. intros item.
  apply inserts_check_vehicle.
Qed.

(** A run of [main] does not read the table of collisions: what it inserts
    and how it ends depend on its input only. *)
Lemma inserts_main (args : Args) (netfile : list Lane) (results : list Row) :
  inserts (main args netfile results).
Proof.
  unfold main. cbv zeta.
  apply inserts_bind; [apply inserts_lift |]. intros _.
  apply inserts_bind; [apply inserts_lift |]. intros _.
  apply inserts_for_each. intros pair. apply inserts_check_instants.
Qed.

End Inserts.

(** C7.  The rows of [collisions] stay unique on (leader, follower,
    seconds) through a run of [main]; inserting a row whose key the table
    already has leaves the table as it is; and a second run over the same
    input, on the table the first run left, leaves that table as it is and
    ends as the first run ended. *)
Theorem detection_idempotent (args : Args) (netfile : list Lane)
    (results : list Row) (table : list Collision) :
  unique_keys table = true ->
  let first := main args netfile results table in
  let second := main args netfile results first.1 in
  unique_keys first.1 = true
  /\ (forall row : Collision,
         existsb (same_key row) first.1 = true ->
         insert_or_ignore first.1 row = first.1)
  /\ second.1 = first.1
  /\ second.2 = first.2
  /\ unique_keys second.1 = true.
Proof.
  intros Hu first second. subst first second.
  destruct (inserts_main args netfile results) as (records & r & Hmain).
  rewrite !Hmain. simpl. rewrite foldl_insert_twice.
  repeat split; try (now apply unique_keys_foldl).
  intros row. apply insert_or_ignore_present.
Qed.

Lemma resolves_b_sound (edge_lookup : EdgeLookup) (snapshot : gmap Z Vehicle) :
  resolves_b edge_lookup snapshot = true -> resolves edge_lookup snapshot.
Proof.
  unfold resolves_b. rewrite forallb_forall. intros H id v Hv.
  specialize (H (id, v)). simpl in H.
  destruct (EdgeLookup_find edge_lookup (curr_pos v) default_threshold) as [lane |];
    [eauto |].
  discriminate H. now apply list_elem_of_In, elem_of_map_to_list.
Qed.

Lemma all_resolve_b_sound (args : Args) (netfile : list Lane) (results : list Row) :
  all_resolve_b args netfile results = true ->
  forall pair : Q * Q,
    pair ∈ snapshot_pairs args results ->
    resolves (EdgeLookup_init netfile (main_xformer args))
             (Snapshot_init results (args_run_id args) pair.1 pair.2).
Proof.
  unfold all_resolve_b. rewrite forallb_forall. intros H pair Hpair.
  now apply resolves_b_sound, H, list_elem_of_In.
Qed.

(** The trace, between the instants 1 and 2: vehicle 2 closes on vehicle 1
    on lane [e_0], and the run inserts this one record. *)
Lemma main_emits_spec_records_witness :
  main (trace_args (Some 1) (Some 2)) [trace_lane] trace_results []
  = ([trace_collision], Ok tt).
Proof.
  assert (all_resolve_b (trace_args (Some 1) (Some 2)) [trace_lane] trace_results
          = true) as Hres by (vm_compute; reflexivity).
  assert (spec_records (trace_args (Some 1) (Some 2)) [trace_lane] trace_results
          = [trace_collision]) as Hspec by (vm_compute; reflexivity).
  rewrite <- Hspec.
  apply (main_emits_spec_records (trace_args (Some 1) (Some 2)) [trace_lane]
           trace_results []).
  - exists 1. reflexivity.
  - exists 2. reflexivity.
  - apply all_resolve_b_sound, Hres.
Defined.

(** On the trace, a second run finds the record of the first and adds
    nothing. *)
Lemma detection_idempotent_witness :
  let first := main (trace_args (Some 1) (Some 2)) [trace_lane] trace_results [] in
  let second :=
    main (trace_args (Some 1) (Some 2)) [trace_lane] trace_results first.1 in
  unique_keys first.1 = true
  /\ (forall row : Collision,
         existsb (same_key row) first.1 = true ->
         insert_or_ignore first.1 row = first.1)
  /\ second.1 = first.1
  /\ second.2 = first.2
  /\ unique_keys second.1 = true.
Proof.
  apply (detection_idempotent (trace_args (Some 1) (Some 2)) [trace_lane]
           trace_results []).
  reflexivity.
Defined.

Example detection_twice_on_trace :
  let run := main (trace_args (Some 1) (Some 2)) [trace_lane] trace_results in
  run [] = ([trace_collision], Ok tt)
  /\ run [trace_collision] = ([trace_collision], Ok tt).
Proof. split; vm_compute; reflexivity. Qed.

(** ** The instants of a run *)

Lemma elem_of_insert_distinct (t x : Q) (l : list Q) :
  x ∈ insert_distinct t l -> x = t \/ x ∈ l.
Proof.
  induction l as [| u l IH]; simpl.
  - intros ->%list_elem_of_singleton. now left.
  - destruct (Qltb t u).
    + intros [-> | H]%elem_of_cons; [now left | now right].
    + destruct (Qeq_bool t u); [now right |].
      intros [-> | H]%elem_of_cons.
      * right. apply list_elem_of_here.
      * destruct (IH H) as [-> | H']; [now left |].
        right. now apply list_elem_of_further.
Qed.

Lemma insert_distinct_keeps (t x : Q) (l : list Q) :
  x ∈ l -> x ∈ insert_distinct t l.
Proof.
  induction l as [| u l IH]; simpl; [easy |].
  intros Hx. destruct (Qltb t u); [now apply list_elem_of_further |].
  destruct (Qeq_bool t u); [exact Hx |].
  apply elem_of_cons in Hx as [-> | Hx].
  - apply list_elem_of_here.
  - now apply list_elem_of_further, IH.
Qed.

Lemma insert_distinct_has (t : Q) (l : list Q) :
  exists u : Q, u ∈ insert_distinct t l /\ u == t.
Proof.
  induction l as [| u l IH]; simpl.
  - exists t. split; [apply list_elem_of_here | apply Qeq_refl].
  - destruct (Qltb t u).
    + exists t. split; [apply list_elem_of_here | apply Qeq_refl].
    + destruct (Qeq_bool t u) eqn:E.
      * apply Qeq_bool_iff in E. exists u.
        split; [apply list_elem_of_here | now symmetry].
      * destruct IH as (u' & Hin & Hu'). exists u'.
        split; [now apply list_elem_of_further | exact Hu'].
Qed.

Lemma elem_of_foldr_insert_distinct (ts : list Q) (x : Q) :
  x ∈ foldr insert_distinct [] ts -> x ∈ ts.
Proof.
  induction ts as [| t ts IH]; simpl; [easy |].
  intros [-> | H]%elem_of_insert_distinct.
  - apply list_elem_of_here.
  - now apply list_elem_of_further, IH.
Qed.

Lemma foldr_insert_distinct_has (ts : list Q) (x : Q) :
  x ∈ ts -> exists u : Q, u ∈ foldr insert_distinct [] ts /\ u == x.
Proof.
  induction ts as [| t ts IH]; simpl; [now intros ?%elem_of_nil |].
  intros [-> | Hx]%elem_of_cons.
  - apply insert_distinct_has.
  - destruct (IH Hx) as (u & Hin & Hu). exists u.
    split; [now apply insert_distinct_keeps | exact Hu].
Qed.

(** The instants are in increasing order, and so no two of them are
    equal. *)
Lemma insert_distinct_sorted (t : Q) (l : list Q) :
  StronglySorted Qlt l -> StronglySorted Qlt (insert_distinct t l).
Proof.
  induction l as [| u l IH]; intros Hs; simpl.
  - repeat constructor.
  - apply StronglySorted_inv in Hs as [Hl Hu].
    destruct (Qltb t u) eqn:Htu.
    + apply Qltb_lt in Htu. constructor; [now constructor |].
      constructor; [exact Htu |].
      eapply Forall_impl; [exact Hu |]. intros x Hx. simpl.
      now apply Qlt_trans with u.
    + destruct (Qeq_bool t u) eqn:E; [now constructor |].
      apply not_true_iff_false in Htu. rewrite Qltb_lt in Htu.
      apply Qeq_bool_neq in E.
      assert (u < t) as Hut.
      { apply Qnot_le_lt. intros Hle. apply Htu.
        apply Qle_lt_or_eq in Hle as [Hlt | Heq]; [exact Hlt | now elim E]. }
      constructor; [now apply IH |].
      apply Forall_forall. intros x [-> | Hx]%elem_of_insert_distinct.
      * exact Hut.
      * rewrite Forall_forall in Hu. now apply Hu.
Qed.

Lemma sql_instants_sorted (results : list Row) (lo hi : option Q) :
  StronglySorted Qlt (sql_instants results lo hi).
Proof.
  unfold sql_instants. destruct lo as [lo |], hi as [hi |]; try constructor.
  induction (seconds <$> _) as [| t ts IH]; simpl; [constructor |].
  now apply insert_distinct_sorted.
Qed.

Lemma sql_instants_elem_of (results : list Row) (lo hi t : Q) :
  t ∈ sql_instants results (Some lo) (Some hi) ->
  exists r : Row, r ∈ results /\ seconds r = t /\ lo <= t /\ t <= hi.
Proof.
  unfold sql_instants. intros H%elem_of_foldr_insert_distinct.
  apply list_elem_of_fmap in H as (r & -> & Hr).
  apply list_elem_of_In, filter_In in Hr as [Hr Hb].
  apply andb_true_iff in Hb as [Hlo Hhi]. apply Qle_bool_iff in Hlo, Hhi.
  exists r. split; [now apply list_elem_of_In | easy].
Qed.

Lemma sql_instants_has (results : list Row) (lo hi : Q) (r : Row) :
  r ∈ results -> lo <= seconds r -> seconds r <= hi ->
  exists t : Q, t ∈ sql_instants results (Some lo) (Some hi) /\ t == seconds r.
Proof.
  intros Hr Hlo Hhi. unfold sql_instants.
  apply foldr_insert_distinct_has, list_elem_of_fmap.
  exists r. split; [reflexivity |].
  apply list_elem_of_In, filter_In. split; [now apply list_elem_of_In |].
  apply andb_true_iff. now rewrite !Qle_bool_iff.
Qed.

(** Without one of the two bounds [main] raises [TypeError] before the
    loop, and the table stays as it was. *)
Lemma main_missing_bound (args : Args) (netfile : list Lane)
    (results : list Row) (table : list Collision) :
  args_start_time args = None \/ args_end_time args = None ->
  main args netfile results table = (table, Raise TypeError)
  /\ main_instants args results = [].
Proof.
  intros H. unfold main, main_instants, sql_instants.
  destruct (args_start_time args) as [lo |], (args_end_time args) as [hi |];
    try (destruct H; discriminate);
    (split; [reflexivity | now destruct (negb _)]).
Qed.

(** C8, on the code.  On the trace, run 0 is sampled from instant 1 to
    instant 2.  With these bounds given, [main] goes through the instants 1
    and 2 and inserts a record; with no bounds given, the list of instants
    is empty and [main] raises [TypeError], the table left empty. *)
Theorem main_default_bounds_on_trace :
  select_min_seconds trace_results 0 = Some 1
  /\ select_max_seconds trace_results 0 = Some 2
  /\ main_instants (trace_args (Some 1) (Some 2)) trace_results = [1; 2]
  /\ main (trace_args (Some 1) (Some 2)) [trace_lane] trace_results []
     = ([trace_collision], Ok tt)
  /\ main_instants (trace_args None None) trace_results = []
  /\ main (trace_args None None) [trace_lane] trace_results []
     = ([], Raise TypeError).
Proof. repeat split; vm_compute; reflexivity. Qed.

(** C10.  The instants of a run come from the rows of every run: each row
    of [results] between the bounds, whatever its run, has its instant in
    the list, and each instant of the list is the instant of such a row.  On
    the trace, the detection of run 0 between the instants 1 and 3 goes
    through instant 3, which only run 1 has, and so through the pair of
    instants 2 and 3, at which run 0 has no row. *)
Theorem instants_of_every_run :
  (forall (results : list Row) (lo hi : Q) (r : Row),
      r ∈ results -> lo <= seconds r -> seconds r <= hi ->
      exists t : Q, t ∈ sql_instants results (Some lo) (Some hi) /\ t == seconds r)
  /\ (forall (results : list Row) (lo hi t : Q),
         t ∈ sql_instants results (Some lo) (Some hi) ->
         exists r : Row, r ∈ results /\ seconds r = t /\ lo <= t /\ t <= hi)
  /\ (let args := trace_args (Some 1) (Some 3) in
      args_run_id args = 0%Z
      /\ main_instants args trace_results = [1; 2; 3]
      /\ snapshot_pairs args trace_results = [(1, 2); (2, 3)]
      /\ (forall r : Row, r ∈ trace_results -> seconds r == 3 -> run_id r = 1%Z)
      /\ Snapshot_init trace_results 0 2 3 = ∅).
Proof.
  split; [exact sql_instants_has |].
  split; [exact sql_instants_elem_of |].
  repeat split; try (vm_compute; reflexivity).
  intros r Hr Ht. apply list_elem_of_In in Hr. simpl in Hr.
  repeat (destruct Hr as [<- | Hr]; [try reflexivity; discriminate Ht |]).
  contradiction.
Qed.

(** ** Further properties *)

(** [find] misses nothing for a positive threshold: a thing of the helper
    within the threshold of [pos], the boundary included, is returned. *)
Theorem ProximityHelper_find_complete (data : list (Z * Point)) (pos : Point)
    (threshold : Q) (row : Z * Point) :
  0 < threshold ->
  row ∈ ProximityHelper_init data ->
  within_threshold pos threshold row.2 ->
  row ∈ ProximityHelper_find (ProximityHelper_init data) pos threshold.
Proof.
  intros Hpos Hrow Hwithin. apply ProximityHelper_find_elem_of.
  split; [exact Hrow | now apply within_threshold_in_extent].
Qed.

(** The thing at [(3,4)] is at distance 5 from the origin, on the
    boundary. *)
Lemma ProximityHelper_find_complete_witness :
  (1%Z, mkPoint 3 4)
  ∈ ProximityHelper_find (ProximityHelper_init [(1%Z, mkPoint 3 4)]) (mkPoint 0 0) 5.
Proof.
  apply (ProximityHelper_find_complete [(1%Z, mkPoint 3 4)] (mkPoint 0 0) 5
           (1%Z, mkPoint 3 4)).
  - reflexivity.
  - apply list_elem_of_In. vm_compute. left. reflexivity.
  - apply within_threshold_iff. split; discriminate.
Defined.

(** With only one bound missing the run stops the same way. *)
Lemma main_missing_bound_witness :
  main (trace_args (Some 1) None) [trace_lane] trace_results []
  = ([], Raise TypeError)
  /\ main_instants (trace_args (Some 1) None) trace_results = [].
Proof.
  apply (main_missing_bound (trace_args (Some 1) None) [trace_lane]
           trace_results []).
  right. reflexivity.
Defined.

(** ** More on the following predicate *)

Lemma is_following_true_iff (up uc vp vc : Point) :
  is_following up uc vp vc = true
  <-> distance2 up vp < distance2 up vc /\ distance2 uc vc <= distance2 up vp.
Proof.
  unfold is_following. now rewrite andb_true_iff, Qltb_lt, Qle_bool_iff.
Qed.

(** A leader that stands still is not followed, however the other vehicle
    moves. *)
Theorem is_following_standing_leader (up uc vp vc : Point) :
  px vp == px vc -> py vp == py vc -> is_following up uc vp vc = false.
Proof.
  intros Hx Hy. apply not_true_iff_false. rewrite is_following_true_iff.
  intros [Hlt _].
  assert (distance2 up vc == distance2 up vp) as E
    by (unfold distance2, sq; rewrite Hx, Hy; ring).
  rewrite E in Hlt. now apply (Qlt_irrefl (distance2 up vp)).
Qed.

Lemma is_following_standing_leader_witness :
  is_following (mkPoint 0 0) (mkPoint 4 0) (mkPoint 5 0) (mkPoint 5 0) = false.
Proof.
  apply (is_following_standing_leader (mkPoint 0 0) (mkPoint 4 0)
           (mkPoint 5 0) (mkPoint 5 0)); reflexivity.
Defined.

(** A vehicle follows itself exactly when it has moved: the predicate
    alone does not keep a vehicle apart from itself. *)
Theorem is_following_itself (p c : Point) :
  is_following p c p c = true <-> ~ (px p == px c /\ py p == py c).
Proof.
  rewrite is_following_true_iff, <- distance2_zero_iff.
  assert (distance2 p p == 0) as Hpp by (unfold distance2, sq; ring).
  assert (distance2 c c == 0) as Hcc by (unfold distance2, sq; ring).
  pose proof (distance2_nonneg p c) as Hpc.
  rewrite Hpp, Hcc. split.
  - intros [Hlt _] Hz. rewrite Hz in Hlt. now apply (Qlt_irrefl 0).
  - intros Hnz. split; [| apply Qle_refl].
    apply Qle_lt_or_eq in Hpc as [Hlt | Heq]; [exact Hlt |].
    exfalso. apply Hnz. now symmetry.
Qed.

(** ** More on the lookups *)

Lemma distance_gt_false_iff (d2 threshold : Q) :
  distance_gt d2 threshold = false <-> 0 <= threshold /\ d2 <= sq threshold.
Proof.
  unfold distance_gt.
  rewrite orb_false_iff, <- !not_true_iff_false, !Qltb_lt.
  split; intros [H1 H2]; split;
    try (now apply Qnot_lt_le); now apply Qle_not_lt.
Qed.

Lemma EdgeLookup_find_Ok_iff (netfile : list Lane) (xformer : CoordTransformer)
    (pos : Point) (threshold : Q) (lane : Lane) :
  EdgeLookup_find (EdgeLookup_init netfile xformer) pos threshold = Ok lane
  <-> STRtree_nearest netfile (omnet2traci xformer pos) = Some lane
      /\ distance_gt (linestring_distance2 (lane_points lane)
                                           (omnet2traci xformer pos)) threshold
         = false.
Proof.
  unfold EdgeLookup_find. simpl.
  destruct (STRtree_nearest netfile (omnet2traci xformer pos)) as [nearest |].
  - destruct (distance_gt _ _) eqn:Hgt.
    + split; [discriminate |]. intros [[= ->] H]. congruence.
    + split; [intros [= ->]; auto | now intros [[= ->] _]].
  - split; [discriminate | now intros [[=] _]].
Qed.

(** A lookup that finds a lane finds the same lane with any larger
    threshold. *)
Theorem EdgeLookup_find_threshold_mono (self : EdgeLookup) (pos : Point)
    (threshold threshold' : Q) (lane : Lane) :
  EdgeLookup_find self pos threshold = Ok lane ->
  threshold <= threshold' ->
  EdgeLookup_find self pos threshold' = Ok lane.
Proof.
  destruct self as [netfile xformer].
  change (mkEdgeLookup netfile xformer) with (EdgeLookup_init netfile xformer).
  rewrite !EdgeLookup_find_Ok_iff. intros [Hn Hd] Hle. split; [exact Hn |].
  apply distance_gt_false_iff in Hd as [H0 Hd].
  apply distance_gt_false_iff. split; [lra |].
  unfold sq in *. nra.
Qed.

Lemma EdgeLookup_find_threshold_mono_witness :
  EdgeLookup_find (EdgeLookup_init [trace_lane] (main_xformer (trace_args None None)))
                  (mkPoint 4 (-1)) 2 = Ok trace_lane.
Proof.
  apply (EdgeLookup_find_threshold_mono
           (EdgeLookup_init [trace_lane] (main_xformer (trace_args None None)))
           (mkPoint 4 (-1)) 1 2 trace_lane).
  - vm_compute. reflexivity.
  - discriminate.
Defined.

(** In the model, [find] raises [ValueError] for a network with lanes only,
    and the exception of the empty tree for a network without lanes. *)
Lemma EdgeLookup_find_Raise (netfile : list Lane) (xformer : CoordTransformer)
    (pos : Point) (threshold : Q) (e : Exception) :
  EdgeLookup_find (EdgeLookup_init netfile xformer) pos threshold = Raise e ->
  (e = AttributeError /\ netfile = []) \/ (e = ValueError /\ netfile <> []).
Proof.
  unfold EdgeLookup_find. simpl. destruct netfile as [| l netfile]; simpl.
  - intros [= <-]. now left.
  - destruct (distance_gt _ _); [| discriminate].
    intros [= <-]. now right.
Qed.

Lemma snapshot_end_lookup (snapshot : gmap Z Vehicle) (id : Z) :
  dict_of (Snapshot_end snapshot) !! id = curr_pos <$> snapshot !! id.
Proof.
  unfold dict_of, Snapshot_end.
  destruct (snapshot !! id) as [v |] eqn:Hv; simpl.
  - assert (is_Some (foldl (fun d row => <[row.1 := row.2]> d) (∅ : gmap Z Point)
                       ((fun kv => (kv.1, curr_pos kv.2)) <$> map_to_list snapshot)
                     !! id)) as [q Hq].
    { apply (foldl_insert_is_Some fst snd). left.
      exists (id, curr_pos v). split; [| reflexivity].
      apply list_elem_of_fmap. exists (id, v). split; [reflexivity |].
      now apply elem_of_map_to_list. }
    rewrite Hq. f_equal.
    apply (foldl_insert_Some fst snd) in Hq as [(row & Hin & Hk & Hrow) | Hq];
      [| now rewrite lookup_empty in Hq].
    apply list_elem_of_fmap in Hin as ([id' v'] & -> & Hin).
    apply elem_of_map_to_list in Hin. simpl in *. subst. congruence.
  - destruct (foldl _ _ _ !! id) as [q |] eqn:Hq; [| reflexivity].
    apply (foldl_insert_Some fst snd) in Hq as [(row & Hin & Hk & Hrow) | Hq];
      [| now rewrite lookup_empty in Hq].
    apply list_elem_of_fmap in Hin as ([id' v'] & -> & Hin).
    apply elem_of_map_to_list in Hin. simpl in *. subst. congruence.
Qed.

(** The helper built over a snapshot holds the vehicles of the snapshot,
    each once, at its current position, and nothing else. *)
Theorem ProximityHelper_over_snapshot (snapshot : gmap Z Vehicle) :
  (forall row : Z * Point,
      row ∈ ProximityHelper_init (Snapshot_end snapshot)
      <-> exists v : Vehicle, snapshot !! row.1 = Some v /\ row.2 = curr_pos v)
  /\ NoDup (ProximityHelper_init (Snapshot_end snapshot)).*1.
Proof.
  split.
  - intros row. unfold ProximityHelper_init.
    rewrite elem_of_map_to_list', snapshot_end_lookup.
    destruct (snapshot !! row.1) as [v |]; simpl.
    + split; [intros [= <-]; eauto | intros (v' & [= <-] & ->); reflexivity].
    + split; [discriminate | now intros (v' & [=] & _)].
  - apply NoDup_fst_map_to_list.
Qed.

Lemma in_buffer_extent_centre (pos : Point) (threshold : Q) :
  0 < threshold -> in_buffer_extent pos threshold pos = true.
Proof.
  intros H. apply in_buffer_extent_iff. split; [exact H |].
  assert (px pos - px pos == 0) as -> by ring.
  assert (py pos - py pos == 0) as -> by ring.
  split; apply Qlt_le_weak, H.
Qed.

(** A vehicle of the snapshot with a positive radius is one of its own
    candidates: only the comparison of the ids in [main] keeps it apart
    from itself. *)
Theorem own_candidate (snapshot : gmap Z Vehicle) (ttc : Q) (id : Z) (v : Vehicle) :
  snapshot !! id = Some v ->
  0 < speed v * ttc ->
  (id, curr_pos v)
  ∈ ProximityHelper_find (ProximityHelper_init (Snapshot_end snapshot))
      (curr_pos v) (speed v * ttc).
Proof.
  intros Hv Hpos. apply ProximityHelper_find_elem_of. split.
  - unfold ProximityHelper_init.
    apply elem_of_map_to_list'. rewrite snapshot_end_lookup. simpl.
    now rewrite Hv.
  - now apply in_buffer_extent_centre.
Qed.

Lemma own_candidate_witness :
  (2%Z, mkPoint 10 0)
  ∈ ProximityHelper_find
      (ProximityHelper_init (Snapshot_end (Snapshot_init trace_results 0 1 2)))
      (mkPoint 10 0) (2 * 1).
Proof.
  apply (own_candidate (Snapshot_init trace_results 0 1 2) 1 2
           (mkVehicle (mkPoint 5 0) (mkPoint 10 0) 2 "ACC")).
  - vm_compute. reflexivity.
  - reflexivity.
Defined.

Lemma ProximityHelper_find_nonpositive (self : list (Z * Point)) (pos : Point)
    (threshold : Q) :
  threshold <= 0 -> ProximityHelper_find self pos threshold = [].
Proof.
  intros H. unfold ProximityHelper_find.
  induction self as [| row l IH]; [reflexivity |]. simpl.
  destruct (in_buffer_extent pos threshold row.2) eqn:Hin; [| exact IH].
  apply in_buffer_extent_iff in Hin as [Hpos _].
  exfalso. now apply (Qlt_not_le _ _ Hpos).
Qed.

(** A vehicle whose speed times the time to collision is zero or less has
    no candidate: the body of the loop inserts nothing for it, a standing
    vehicle is never a follower. *)
Theorem check_vehicle_no_radius (edge_lookup : EdgeLookup) (ttc : Q)
    (snapshot : gmap Z Vehicle) (ph : list (Z * Point)) (curr_instant : Q)
    (item : Z * Vehicle) (table : list Collision) :
  speed item.2 * ttc <= 0 ->
  (check_vehicle edge_lookup ttc snapshot ph curr_instant item table).1 = table.
Proof.
  intros H. unfold check_vehicle, mbind, M_bind, lift.
  destruct (EdgeLookup_find edge_lookup (curr_pos item.2) default_threshold);
    [| reflexivity].
  now rewrite ProximityHelper_find_nonpositive.
Qed.

Lemma check_vehicle_no_radius_witness :
  (check_vehicle (EdgeLookup_init [trace_lane] (main_xformer (trace_args None None)))
                 1 (Snapshot_init trace_results 0 1 2)
                 (ProximityHelper_init (Snapshot_end (Snapshot_init trace_results 0 1 2)))
                 2 (2%Z, mkVehicle (mkPoint 10 0) (mkPoint 10 0) 0 "ACC") []).1
  = [].
Proof.
  apply (check_vehicle_no_radius _ 1 _ _ 2
           (2%Z, mkVehicle (mkPoint 10 0) (mkPoint 10 0) 0 "ACC") []).
  discriminate.
Defined.

(** ** What a run inserts and how it ends *)

Section RunSpec.

Context (P : Collision -> Prop) (E : Exception -> Prop).

Lemma run_spec_ret {A : Type} (a : A) : run_spec P E (mret a).
Proof. exists [], (Ok a). repeat split; [constructor | discriminate]. Qed.

Lemma run_spec_raise {A : Type} (e : Exception) :
  E e -> run_spec P E (raise (A := A) e).
Proof.
  intros He. exists [], (Raise e).
  repeat split; [constructor | now intros ? [= <-]].
Qed.

Lemma run_spec_insert (row : Collision) : P row -> run_spec P E (execute_insert row).
Proof.
  intros Hrow. exists [row], (Ok tt).
  repeat split; [now repeat constructor | discriminate].
Qed.

Lemma run_spec_bind {A B : Type} (m : M A) (k : A -> M B) :
  run_spec P E m -> (forall a, run_spec P E (k a)) -> run_spec P E (m ≫= k).
Proof.
  intros (l1 & r & HP & HE & Hm) Hk. destruct r as [a | e].
  - destruct (Hk a) as (l2 & r2 & HP2 & HE2 & Hka). exists (l1 ++ l2), r2.
    split; [now apply Forall_app |]. split; [exact HE2 |].
    intros table. unfold mbind, M_bind. now rewrite Hm, Hka, foldl_app.
  - exists l1, (Raise e). split; [exact HP |]. split.
    + now intros ? [= <-]; apply HE.
    + intros table. unfold mbind, M_bind. now rewrite Hm.
Qed.

Lemma run_spec_lift_bind {A B : Type} (r : result A) (k : A -> M B) :
  (forall e, r = Raise e -> E e) ->
  (forall a, r = Ok a -> run_spec P E (k a)) ->
  run_spec P E (lift r ≫= k).
Proof.
  intros HE Hk. destruct r as [a | e].
  - destruct (Hk a eq_refl) as (l & r & HP & HEr & Hka). exists l, r.
    split; [exact HP |]. split; [exact HEr |].
    intros table. unfold mbind, M_bind, lift. apply Hka.
  - exists [], (Raise e). split; [constructor |]. split.
    + intros ? [= <-]. now apply HE.
    + reflexivity.
Qed.

Lemma run_spec_for_each {A : Type} (l : list A) (body : A -> M unit) :
  (forall x, x ∈ l -> run_spec P E (body x)) -> run_spec P E (for_each l body).
Proof.
  induction l as [| x l IH]; intros H; simpl.
  - apply run_spec_ret.
  - apply run_spec_bind; [apply H, list_elem_of_here |].
    intros _. apply IH. intros y Hy. now apply H, list_elem_of_further.
Qed.

End RunSpec.

(** A loop that ends without an exception ran every body without one. *)
Lemma for_each_Ok {A : Type} (l : list A) (body : A -> M unit)
    (table table' : list Collision) :
  for_each l body table = (table', Ok tt) ->
  forall x, x ∈ l -> exists t t', body x t = (t', Ok tt).
Proof.
  revert table. induction l as [| x l IH]; intros table H y Hy.
  - now apply elem_of_nil in Hy.
  - simpl in H. unfold mbind, M_bind in H.
    destruct (body x table) as [t1 [[] | e]] eqn:Hx; [| discriminate].
    apply elem_of_cons in Hy as [-> | Hy]; [eauto |].
    now apply (IH t1).
Qed.

Section MainRun.

Context (args : Args) (netfile : list Lane) (results : list Row).

Let edge_lookup := EdgeLookup_init netfile (main_xformer args).

Hypothesis bound_lo : is_Some (args_start_time args).
Hypothesis bound_hi : is_Some (args_end_time args).

Lemma find_explained (pair : Q * Q) (id : Z) (v : Vehicle) (e : Exception) :
  pair ∈ snapshot_pairs args results ->
  Snapshot_init results (args_run_id args) pair.1 pair.2 !! id = Some v ->
  EdgeLookup_find edge_lookup (curr_pos v) default_threshold = Raise e ->
  explained args netfile results e.
Proof.
  intros Hpair Hv He.
  destruct (EdgeLookup_find_Raise _ _ _ _ _ He) as [[-> Hn] | [-> Hn]]; simpl.
  - auto.
  - split; [assumption |]. split; [assumption |]. right.
    split; [exact Hn |]. split; [reflexivity |]. exists pair, id, v. auto.
Qed.

Lemma run_spec_check_vehicle (pair : Q * Q) (item : Z * Vehicle) :
  pair ∈ snapshot_pairs args results ->
  item ∈ Snapshot_items
           (Snapshot_init results (args_run_id args) pair.1 pair.2) ->
  run_spec (sound_record args netfile results) (explained args netfile results)
    (check_vehicle edge_lookup (args_ttc args)
       (Snapshot_init results (args_run_id args) pair.1 pair.2)
       (ProximityHelper_init
          (Snapshot_end (Snapshot_init results (args_run_id args) pair.1 pair.2)))
       pair.2 item).
Proof.
  intros Hpair Hitem. apply elem_of_map_to_list' in Hitem.
  set (snapshot := Snapshot_init results (args_run_id args) pair.1 pair.2) in *.
  unfold check_vehicle. apply run_spec_lift_bind.
  { intros e. now apply (find_explained pair item.1 item.2). }
  intros lane Hlane. apply run_spec_for_each. intros nearby Hnearby.
  pose proof Hnearby as (w & Hw & Hpos)%candidate_in_snapshot.
  apply ProximityHelper_find_elem_of in Hnearby as [_ Hext].
  unfold check_nearby, Snapshot_get.
  destruct (Z.eqb_spec nearby.1 item.1) as [Heq | Hne]; [apply run_spec_ret |].
  rewrite Hw. apply run_spec_lift_bind.
  { intros e. now apply (find_explained pair nearby.1 w). }
  intros lane_w Hlane_w.
  destruct (String.eqb_spec (lane_id lane_w) (lane_id lane)) as [El | El];
    simpl; [| apply run_spec_ret].
  destruct (is_following _ _ _ _) eqn:Hf; simpl; [| apply run_spec_ret].
  apply run_spec_insert.
  rewrite <- Hpos in Hext.
  exists pair, item.2, w, lane, lane_w. simpl.
  repeat split; assumption.
Qed.

Lemma run_spec_loop :
  run_spec (sound_record args netfile results) (explained args netfile results)
    (for_each (snapshot_pairs args results)
              (check_instants edge_lookup args results)).
Proof.
  apply run_spec_for_each. intros pair Hpair. unfold check_instants.
  apply run_spec_for_each. intros item Hitem.
  now apply run_spec_check_vehicle.
Qed.

End MainRun.

Lemma run_spec_main (args : Args) (netfile : list Lane) (results : list Row) :
  run_spec (sound_record args netfile results) (explained args netfile results)
    (main args netfile results).
Proof.
  unfold main. cbv zeta.
  destruct (args_start_time args) as [lo |] eqn:Hlo.
  2: { exists [], (Raise TypeError). split; [constructor |]. split.
       - intros e [= <-]. simpl. now left.
       - reflexivity. }
  destruct (args_end_time args) as [hi |] eqn:Hhi.
  2: { exists [], (Raise TypeError). split; [constructor |]. split.
       - intros e [= <-]. simpl. now right.
       - reflexivity. }
  destruct (run_spec_loop args netfile results) as (records & r & HP & HE & Hrun);
    [rewrite Hlo; eauto | rewrite Hhi; eauto |].
  exists records, r. split; [exact HP |]. split; [exact HE |].
  intros table. unfold mbind, M_bind, lift. simpl. apply Hrun.
Qed.

Lemma foldl_insert_app (records : list Collision) (P : Collision -> Prop)
    (table : list Collision) :
  Forall P records ->
  exists added : list Collision,
    foldl insert_or_ignore table records = table ++ added /\ Forall P added.
Proof.
  revert table. induction records as [| row records IH]; intros table HP; simpl.
  - exists []. now rewrite app_nil_r.
  - apply Forall_cons in HP as [Hrow HP].
    unfold insert_or_ignore at 2.
    destruct (existsb (same_key row) table); [now apply IH |].
    destruct (IH (table ++ [row]) HP) as (added & -> & Hadded).
    exists (row :: added). rewrite <- app_assoc. split; [reflexivity |].
    now constructor.
Qed.

(** Whatever its input and however it ends, a run of [main] keeps the rows
    the table had, in their order, and adds after them only records of a
    follower and a leader of one snapshot of the run: two different
    vehicles of the snapshot on lanes of the same id, the leader in the
    extent of the buffer around the follower, the follower following the
    leader, at the later instant of the pair. *)
Theorem main_rows_sound (args : Args) (netfile : list Lane) (results : list Row)
    (table : list Collision) :
  exists added : list Collision,
    (main args netfile results table).1 = table ++ added
    /\ Forall (sound_record args netfile results) added.
Proof.
  destruct (run_spec_main args netfile results) as (records & r & HP & _ & Hrun).
  rewrite Hrun. simpl. now apply foldl_insert_app.
Qed.

(** How a run of [main] ends.  Without an exception: both bounds were given
    and every vehicle of every snapshot is within the threshold of its
    nearest lane.  With [TypeError]: a bound was not given.  With any other
    exception: both bounds were given, and either the network has no lane,
    or it has lanes, the exception is [ValueError] and a vehicle of a
    snapshot is farther than the threshold from the nearest lane. *)
Theorem main_outcome (args : Args) (netfile : list Lane) (results : list Row)
    (table : list Collision) :
  match (main args netfile results table).2 with
  | Ok _ =>
      is_Some (args_start_time args) /\ is_Some (args_end_time args)
      /\ forall pair : Q * Q,
           pair ∈ snapshot_pairs args results ->
           resolves (EdgeLookup_init netfile (main_xformer args))
                    (Snapshot_init results (args_run_id args) pair.1 pair.2)
  | Raise e => explained args netfile results e
  end.
Proof.
  destruct (main args netfile results table) as [table' [[] | e]] eqn:Hmain; simpl.
  - unfold main in Hmain. cbv zeta in Hmain.
    unfold mbind, M_bind, lift in Hmain.
    destruct (args_start_time args) as [lo |]; [| discriminate].
    destruct (args_end_time args) as [hi |]; [| discriminate].
    simpl in Hmain. split; [eauto |]. split; [eauto |].
    intros pair Hpair id v Hv.
    destruct (for_each_Ok _ _ _ _ Hmain pair Hpair) as (t1 & t1' & Hpair_ok).
    unfold check_instants in Hpair_ok.
    destruct (for_each_Ok _ _ _ _ Hpair_ok (id, v)) as (t2 & t2' & Hv_ok).
    { now apply elem_of_map_to_list. }
    unfold check_vehicle, mbind, M_bind, lift in Hv_ok. simpl in Hv_ok.
    destruct (EdgeLookup_find _ (curr_pos v) default_threshold) as [lane |];
      [eauto | discriminate].
  - destruct (run_spec_main args netfile results) as (records & r & _ & HE & Hrun).
    rewrite Hrun in Hmain. injection Hmain as _ ->. now apply HE.
Qed.

(** * Properties of sql2edgedata.py *)

(** ** group_by_avg *)

Section GroupByAvg.

Context `{Countable K} {D : Type} (key : D -> K) (value : D -> Q).

Lemma group_values_snoc (dicts : list D) (d : D) :
  sql2edgedata.group_values (dicts ++ [d]) key value
  = alter (fun v => v ++ [value d]) (key d)
      match sql2edgedata.group_values dicts key value !! key d with
      | None => <[key d := []]> (sql2edgedata.group_values dicts key value)
      | Some _ => sql2edgedata.group_values dicts key value
      end.
Proof. unfold sql2edgedata.group_values. now rewrite foldl_app. Qed.

Lemma group_values_lookup (dicts : list D) (k : K) :
  sql2edgedata.group_values dicts key value !! k
  = match value <$> filter (fun d => key d = k) dicts with
    | [] => None
    | group => Some group
    end.
Proof.
  induction dicts as [| d dicts IH] using rev_ind; [reflexivity |].
  rewrite group_values_snoc, filter_app, fmap_app.
  destruct (decide (key d = k)) as [<- | Hne].
  - rewrite filter_cons_True, filter_nil by reflexivity. simpl.
    rewrite IH.
    destruct (value <$> filter (fun d0 => key d0 = key d) dicts) as [| x g].
    + now rewrite lookup_alter_eq, lookup_insert_eq.
    + now rewrite lookup_alter_eq, IH.
  - rewrite filter_cons_False, filter_nil, app_nil_r by exact Hne.
    rewrite lookup_alter_ne by exact Hne.
    destruct (sql2edgedata.group_values dicts key value !! key d);
      [exact IH |].
    now rewrite lookup_insert_ne.
Qed.

Lemma py_len_nonzero (v : list Q) : v <> [] -> ~ sql2edgedata.py_len v == 0.
Proof.
  destruct v as [| x v]; [congruence |]. intros _.
  unfold sql2edgedata.py_len, Qeq. simpl. lia.
Qed.

Lemma group_nonempty_iff (dicts : list D) (k : K) :
  value <$> filter (fun d => key d = k) dicts <> []
  <-> exists d, d ∈ dicts /\ key d = k.
Proof.
  split.
  - destruct (filter _ dicts) as [| d l] eqn:E; [easy |]. intros _.
    assert (d ∈ filter (fun d => key d = k) dicts) as Hd
      by (rewrite E; apply list_elem_of_here).
    apply list_elem_of_filter in Hd as [Hk Hd]. eauto.
  - intros (d & Hd & Hk) E.
    assert (d ∈ filter (fun d => key d = k) dicts) as Hin
      by now apply list_elem_of_filter.
    destruct (filter _ dicts); [now apply elem_of_nil in Hin | discriminate].
Qed.

Lemma group_by_avg_is_Some (dicts : list D) (k : K) :
  is_Some (sql2edgedata.group_by_avg dicts key value !! k)
  <-> exists d, d ∈ dicts /\ key d = k.
Proof.
  rewrite <- group_nonempty_iff. unfold sql2edgedata.group_by_avg.
  rewrite lookup_fmap, group_values_lookup.
  destruct (value <$> filter _ dicts); simpl; split; intros Hs;
    try congruence; eauto.
  now destruct Hs.
Qed.

(** [group_by_avg] has a key exactly when a dictionary has it, and gives
    for it the sum of the values of the dictionaries with this key over
    their number, which is not zero: the division of [group_by_avg] never
    divides by zero. *)
Theorem group_by_avg_lookup (dicts : list D) (k : K) :
  let group := value <$> filter (fun d => key d = k) dicts in
  sql2edgedata.group_by_avg dicts key value !! k
  = match group with
    | [] => None
    | _ => Some (sql2edgedata.py_sum group / sql2edgedata.py_len group)
    end
  /\ (is_Some (sql2edgedata.group_by_avg dicts key value !! k)
      <-> exists d, d ∈ dicts /\ key d = k)
  /\ (group <> [] -> ~ sql2edgedata.py_len group == 0).
Proof.
  intros group. split; [| split].
  - unfold sql2edgedata.group_by_avg.
    rewrite lookup_fmap, group_values_lookup. fold group. now destruct group.
  - apply group_by_avg_is_Some.
  - apply py_len_nonzero.
Qed.

End GroupByAvg.

(** ** The least and the greatest sample *)

Lemma foldl_Qmin_le (x : Q) (v : list Q) :
  foldl Qmin x v <= x /\ Forall (fun y => foldl Qmin x v <= y) v.
Proof.
  revert x. induction v as [| y v IH]; intros x; simpl.
  - split; [apply Qle_refl | constructor].
  - destruct (IH (Qmin x y)) as [Hm Hv]. split.
    + eapply Qle_trans; [exact Hm | apply Q.le_min_l].
    + constructor; [| exact Hv].
      eapply Qle_trans; [exact Hm | apply Q.le_min_r].
Qed.

Lemma foldl_Qmax_ge (x : Q) (v : list Q) :
  x <= foldl Qmax x v /\ Forall (fun y => y <= foldl Qmax x v) v.
Proof.
  revert x. induction v as [| y v IH]; intros x; simpl.
  - split; [apply Qle_refl | constructor].
  - destruct (IH (Qmax x y)) as [Hm Hv]. split.
    + eapply Qle_trans; [apply Q.le_max_l | exact Hm].
    + constructor; [| exact Hv].
      eapply Qle_trans; [apply Q.le_max_r | exact Hm].
Qed.

Lemma foldl_Qmin_elem_of (x : Q) (v : list Q) : foldl Qmin x v ∈ x :: v.
Proof.
  revert x. induction v as [| y v IH]; intros x; simpl;
    [apply list_elem_of_here |].
  specialize (IH (Qmin x y)). apply elem_of_cons in IH as [-> | IH].
  - unfold Qmin, GenericMinMax.gmin.
    destruct (Qcompare x y);
      [apply list_elem_of_here | apply list_elem_of_here |
       apply list_elem_of_further, list_elem_of_here].
  - now do 2 apply list_elem_of_further.
Qed.

Lemma foldl_Qmax_elem_of (x : Q) (v : list Q) : foldl Qmax x v ∈ x :: v.
Proof.
  revert x. induction v as [| y v IH]; intros x; simpl;
    [apply list_elem_of_here |].
  specialize (IH (Qmax x y)). apply elem_of_cons in IH as [-> | IH].
  - unfold Qmax, GenericMinMax.gmax.
    destruct (Qcompare x y);
      [apply list_elem_of_here |
       apply list_elem_of_further, list_elem_of_here | apply list_elem_of_here].
  - now do 2 apply list_elem_of_further.
Qed.

(** ** The element of an edge *)

Lemma py_div_Ok (x y z : Q) :
  sql2edgedata.py_div x y = sql2edgedata.Ok z -> ~ y == 0 /\ z = x / y.
Proof.
  unfold sql2edgedata.py_div. destruct (Qeq_bool y 0) eqn:E; [discriminate |].
  intros [= <-]. split; [now apply Qeq_bool_neq | reflexivity].
Qed.

Lemma py_div_Raise (x y : Q) (e : sql2edgedata.Exception) :
  sql2edgedata.py_div x y = sql2edgedata.Raise e ->
  y == 0 /\ e = sql2edgedata.ZeroDivisionError.
Proof.
  unfold sql2edgedata.py_div. destruct (Qeq_bool y 0) eqn:E; [| discriminate].
  intros [= <-]. split; [now apply Qeq_bool_iff | reflexivity].
Qed.

Lemma py_div_nonzero (x y : Q) :
  ~ y == 0 -> sql2edgedata.py_div x y = sql2edgedata.Ok (x / y).
Proof.
  intros Hy. unfold sql2edgedata.py_div.
  destruct (Qeq_bool y 0) eqn:E; [| reflexivity].
  now apply Qeq_bool_iff in E.
Qed.

Lemma Qdiv_zero_iff (x y : Q) : ~ y == 0 -> (x / y == 0 <-> x == 0).
Proof.
  intros Hy. split; intros H.
  - assert (x == x / y * y) as -> by (field; exact Hy). rewrite H. ring.
  - rewrite H. field. exact Hy.
Qed.

Lemma edge_element_inv (edge2speed edge2len : gmap (option string) Q)
    (k : option string) (speeds : list Q) (el : sql2edgedata.EdgeElement) :
  sql2edgedata.edge_element edge2speed edge2len k speeds = sql2edgedata.Ok el ->
  exists (x : Q) (v : list Q) (s l : Q),
    let avg := sql2edgedata.py_sum speeds / sql2edgedata.py_len speeds in
    speeds = x :: v
    /\ ~ avg == 0
    /\ edge2speed !! k = Some s /\ edge2len !! k = Some l
    /\ ~ s == 0 /\ ~ l == 0
    /\ el = {| sql2edgedata.attr_id := k;
               sql2edgedata.attr_speed := s;
               sql2edgedata.attr_length := l;
               sql2edgedata.attr_avg_speed := avg;
               sql2edgedata.attr_min_speed := foldl Qmin x v;
               sql2edgedata.attr_max_speed := foldl Qmax x v;
               sql2edgedata.attr_stdev_speed2 :=
                 if (2 <? length speeds)%nat
                 then Some (sql2edgedata.variance speeds) else None;
               sql2edgedata.attr_travelrate := 1 / avg * (16667 # 1000);
               sql2edgedata.attr_congestion_index :=
                 (l / avg - l / s) / (l / s) |}.
Proof.
  unfold sql2edgedata.edge_element, mbind, sql2edgedata.result_bind.
  destruct (sql2edgedata.py_div (sql2edgedata.py_sum speeds) _) as [avg |] eqn:Havg;
    [| discriminate].
  apply py_div_Ok in Havg as [_ ->].
  destruct speeds as [| x v]; [discriminate |]. simpl sql2edgedata.py_min.
  simpl sql2edgedata.py_max. cbv iota beta.
  destruct (sql2edgedata.py_div 1 _) as [inverse |] eqn:Hinv; [| discriminate].
  apply py_div_Ok in Hinv as [Havg ->].
  unfold sql2edgedata.dict_get.
  destruct (edge2speed !! k) as [s |]; [| discriminate].
  destruct (edge2len !! k) as [l |]; [| discriminate].
  destruct (sql2edgedata.py_div l s) as [expected |] eqn:Hexp; [| discriminate].
  apply py_div_Ok in Hexp as [Hs ->].
  destruct (sql2edgedata.py_div l _) as [actual |] eqn:Hact; [| discriminate].
  apply py_div_Ok in Hact as [_ ->].
  destruct (sql2edgedata.py_div _ (l / s)) as [cidx |] eqn:Hcidx; [| discriminate].
  apply py_div_Ok in Hcidx as [Hls ->].
  intros [= <-]. exists x, v, s, l. cbv zeta.
  repeat split; try assumption; try reflexivity.
  intros Hl. apply Hls. now apply Qdiv_zero_iff.
Qed.

(** An element is written for an edge only when the edge has samples and
    the mean of the sampled speeds, the speed of the edge and the length of
    the edge are not zero.  In the element, the average speed is the sum
    of the samples over their number, the least and the greatest speed are
    samples and hold every sample between them, and the standard deviation
    is left empty exactly for one or two samples.  For a positive length
    and positive speeds the congestion index is not negative when the
    average speed is at most the speed of the edge, and not positive when
    it is at least the speed of the edge. *)
Theorem edge_element_attributes (edge2speed edge2len : gmap (option string) Q)
    (k : option string) (speeds : list Q) (el : sql2edgedata.EdgeElement) :
  sql2edgedata.edge_element edge2speed edge2len k speeds = sql2edgedata.Ok el ->
  sql2edgedata.attr_id el = k
  /\ speeds <> []
  /\ sql2edgedata.attr_avg_speed el
     = sql2edgedata.py_sum speeds / sql2edgedata.py_len speeds
  /\ edge2speed !! k = Some (sql2edgedata.attr_speed el)
  /\ edge2len !! k = Some (sql2edgedata.attr_length el)
  /\ ~ sql2edgedata.attr_avg_speed el == 0
  /\ ~ sql2edgedata.attr_speed el == 0
  /\ ~ sql2edgedata.attr_length el == 0
  /\ sql2edgedata.attr_min_speed el ∈ speeds
  /\ sql2edgedata.attr_max_speed el ∈ speeds
  /\ Forall (fun x => sql2edgedata.attr_min_speed el <= x
                      /\ x <= sql2edgedata.attr_max_speed el) speeds
  /\ (sql2edgedata.attr_stdev_speed2 el = None <-> (length speeds <= 2)%nat)
  /\ (0 < sql2edgedata.attr_length el ->
      0 < sql2edgedata.attr_speed el ->
      0 < sql2edgedata.attr_avg_speed el ->
      (sql2edgedata.attr_avg_speed el <= sql2edgedata.attr_speed el ->
       0 <= sql2edgedata.attr_congestion_index el)
      /\ (sql2edgedata.attr_speed el <= sql2edgedata.attr_avg_speed el ->
          sql2edgedata.attr_congestion_index el <= 0)).
Proof.
  intros (x & v & s & l & Hspeeds & Havg & Hs & Hl & Hs0 & Hl0 & ->)%edge_element_inv.
  cbv zeta in *. simpl.
  assert (Forall (fun y => foldl Qmin x v <= y /\ y <= foldl Qmax x v) speeds)
    as Hbetween.
  { rewrite Hspeeds.
    destruct (foldl_Qmin_le x v) as [Hmin Hmins].
    destruct (foldl_Qmax_ge x v) as [Hmax Hmaxs].
    constructor; [now split |].
    rewrite Forall_forall in Hmins, Hmaxs. apply Forall_forall.
    intros y Hy. split; [now apply Hmins | now apply Hmaxs]. }
  assert (speeds <> []) as Hne by (rewrite Hspeeds; discriminate).
  split; [reflexivity |]. split; [exact Hne |]. split; [reflexivity |].
  split; [exact Hs |]. split; [exact Hl |]. split; [exact Havg |].
  split; [exact Hs0 |]. split; [exact Hl0 |].
  split; [rewrite Hspeeds; apply foldl_Qmin_elem_of |].
  split; [rewrite Hspeeds; apply foldl_Qmax_elem_of |].
  split; [exact Hbetween |]. split.
  - destruct (Nat.ltb_spec 2 (length speeds)); split; intros; try easy; lia.
  - generalize dependent (sql2edgedata.py_sum speeds / sql2edgedata.py_len speeds).
    intros avg Havg Hlpos Hspos Hapos.
    assert ((l / avg - l / s) / (l / s) == (s - avg) / avg) as ->
      by (field; repeat split; assumption).
    split; intros Hle.
    + apply Qle_shift_div_l; [exact Hapos | lra].
    + apply Qle_shift_div_r; [exact Hapos | lra].
Qed.

(** Two samples, 1 and 2, on an edge of speed 13.9: the average 3/2 is
    below the speed of the edge, and the congestion index is positive. *)
Lemma edge_element_attributes_witness :
  let el := {| sql2edgedata.attr_id := Some "e"%string;
               sql2edgedata.attr_speed := 139 # 10;
               sql2edgedata.attr_length := 100;
               sql2edgedata.attr_avg_speed := 3 # 2;
               sql2edgedata.attr_min_speed := 1;
               sql2edgedata.attr_max_speed := 2;
               sql2edgedata.attr_stdev_speed2 := None;
               sql2edgedata.attr_travelrate := 33334 # 3000;
               sql2edgedata.attr_congestion_index := 3447200 # 417000 |} in
  sql2edgedata.attr_min_speed el ∈ [1; 2]
  /\ sql2edgedata.attr_max_speed el ∈ [1; 2]
  /\ 0 <= sql2edgedata.attr_congestion_index el.
Proof.
  intros el.
  destruct (edge_element_attributes {[Some "e"%string := 139 # 10]}
              {[Some "e"%string := 100]} (Some "e"%string) [1; 2] el)
    as (_ & _ & _ & _ & _ & _ & _ & _ & Hmin & Hmax & _ & _ & Hcidx).
  - vm_compute. reflexivity.
  - split; [exact Hmin |]. split; [exact Hmax |].
    apply Hcidx; reflexivity || discriminate.
Defined.

(** ** The dictionary of the samples *)

Section Edgedata.

Lemma edgedata_get_add (edgedata : list (option string * list Q))
    (k k' : option string) (s : Q) :
  sql2edgedata.edgedata_get (sql2edgedata.edgedata_add edgedata k s) k'
  = if decide (k = k')
    then Some (default [] (sql2edgedata.edgedata_get edgedata k) ++ [s])
    else sql2edgedata.edgedata_get edgedata k'.
Proof.
  induction edgedata as [| [k0 v] rest IH]; simpl.
  - repeat case_decide; congruence.
  - destruct (decide (k0 = k)) as [-> | Hne]; simpl.
    + repeat case_decide; congruence.
    + rewrite IH. repeat case_decide; congruence.
Qed.

Lemma edgedata_get_is_Some (edgedata : list (option string * list Q))
    (k : option string) :
  is_Some (sql2edgedata.edgedata_get edgedata k) <-> k ∈ edgedata.*1.
Proof.
  induction edgedata as [| [k0 v] rest IH]; simpl.
  - split; [intros [? [=]] | intros ?%elem_of_nil; easy].
  - rewrite elem_of_cons. case_decide as Hk.
    + split; [now left | eauto].
    + rewrite IH. split; [now right | intros [-> | ?]; [easy | assumption]].
Qed.

Lemma edgedata_get_elem_of (edgedata : list (option string * list Q))
    (k : option string) (v : list Q) :
  NoDup edgedata.*1 ->
  (k, v) ∈ edgedata <-> sql2edgedata.edgedata_get edgedata k = Some v.
Proof.
  induction edgedata as [| [k0 v0] rest IH]; simpl; intros Hnd.
  - split; [intros ?%elem_of_nil; easy | discriminate].
  - apply NoDup_cons in Hnd as [Hk0 Hnd]. rewrite elem_of_cons.
    case_decide as Hk.
    + subst k0. split.
      * intros [[= ->] | Hin]; [reflexivity |].
        exfalso. apply Hk0. apply list_elem_of_fmap. now exists (k, v).
      * intros [= ->]. now left.
    + rewrite <- (IH Hnd). split; [intros [[= -> ->] | ?]; easy | now right].
Qed.

Lemma edgedata_add_keys (edgedata : list (option string * list Q))
    (k k' : option string) (s : Q) :
  k' ∈ (sql2edgedata.edgedata_add edgedata k s).*1 <-> k' = k \/ k' ∈ edgedata.*1.
Proof.
  rewrite <- !edgedata_get_is_Some, edgedata_get_add.
  case_decide as Hk.
  - subst. split; [now left | eauto].
  - split; [now right | intros [-> | ?]; [easy | assumption]].
Qed.

Lemma edgedata_add_NoDup (edgedata : list (option string * list Q))
    (k : option string) (s : Q) :
  NoDup edgedata.*1 -> NoDup (sql2edgedata.edgedata_add edgedata k s).*1.
Proof.
  induction edgedata as [| [k0 v] rest IH]; simpl; intros Hnd.
  - repeat constructor. now intros ?%elem_of_nil.
  - apply NoDup_cons in Hnd as [Hk0 Hnd].
    case_decide as Hk; simpl; apply NoDup_cons; split; auto.
    rewrite edgedata_add_keys. intros [-> | ?]; easy.
Qed.

Lemma edgedata_add_count (edgedata : list (option string * list Q))
    (k : option string) (s : Q) :
  length (concat (sql2edgedata.edgedata_add edgedata k s).*2)
  = S (length (concat edgedata.*2)).
Proof.
  induction edgedata as [| [k0 v] rest IH]; [reflexivity |].
  cbn [sql2edgedata.edgedata_add]. case_decide.
  - rewrite !fmap_cons, !concat_cons. simpl. rewrite !length_app. simpl. lia.
  - rewrite !fmap_cons, !concat_cons. simpl. rewrite !length_app, IH. lia.
Qed.

Context (lanes : list Lane) (xformer : CoordTransformer).

Lemma speeds_on_cons (row : Z * Q * Q * Q * Q) (rows : list (Z * Q * Q * Q * Q))
    (k k' : option string) :
  sql2edgedata.locate lanes xformer row.1.1.2 row.1.2 = sql2edgedata.Ok k' ->
  sql2edgedata.speeds_on lanes xformer (row :: rows) k
  = (if decide (k' = k) then [row.2] else [])
      ++ sql2edgedata.speeds_on lanes xformer rows k.
Proof.
  intros Hk. unfold sql2edgedata.speeds_on. simpl. rewrite Hk.
  now case_decide.
Qed.

Lemma collect_cons (row : Z * Q * Q * Q * Q) (rows : list (Z * Q * Q * Q * Q))
    (edgedata : list (option string * list Q)) :
  sql2edgedata.collect lanes xformer (row :: rows) edgedata
  = match sql2edgedata.locate lanes xformer row.1.1.2 row.1.2 with
    | sql2edgedata.Raise e => sql2edgedata.Raise e
    | sql2edgedata.Ok k =>
        sql2edgedata.collect lanes xformer rows
          (sql2edgedata.edgedata_add edgedata k row.2)
    end.
Proof. now destruct row as [[[[??]?]?]?]. Qed.

Lemma collect_get (rows : list (Z * Q * Q * Q * Q))
    (e0 e : list (option string * list Q)) (k : option string) :
  sql2edgedata.collect lanes xformer rows e0 = sql2edgedata.Ok e ->
  sql2edgedata.edgedata_get e k
  = match sql2edgedata.speeds_on lanes xformer rows k with
    | [] => sql2edgedata.edgedata_get e0 k
    | l => Some (default [] (sql2edgedata.edgedata_get e0 k) ++ l)
    end.
Proof.
  revert e0. induction rows as [| row rows IH]; intros e0 H.
  - injection H as <-. reflexivity.
  - rewrite collect_cons in H.
    destruct (sql2edgedata.locate lanes xformer row.1.1.2 row.1.2) as [k' |]
      eqn:Hk; [| discriminate].
    rewrite (IH _ H), (speeds_on_cons _ _ _ _ Hk), edgedata_get_add.
    case_decide as Hkk; simpl.
    + subst k'.
      destruct (sql2edgedata.speeds_on lanes xformer rows k); simpl;
        [reflexivity |].
      now rewrite <- app_assoc.
    + reflexivity.
Qed.

Lemma collect_NoDup (rows : list (Z * Q * Q * Q * Q))
    (e0 e : list (option string * list Q)) :
  sql2edgedata.collect lanes xformer rows e0 = sql2edgedata.Ok e ->
  NoDup e0.*1 -> NoDup e.*1.
Proof.
  revert e0. induction rows as [| row rows IH]; intros e0 H Hnd.
  - now injection H as <-.
  - rewrite collect_cons in H.
    destruct (sql2edgedata.locate lanes xformer row.1.1.2 row.1.2);
      [| discriminate].
    apply (IH _ H). now apply edgedata_add_NoDup.
Qed.

Lemma collect_count (rows : list (Z * Q * Q * Q * Q))
    (e0 e : list (option string * list Q)) :
  sql2edgedata.collect lanes xformer rows e0 = sql2edgedata.Ok e ->
  length (concat e.*2) = (length (concat e0.*2) + length rows)%nat.
Proof.
  revert e0. induction rows as [| row rows IH]; intros e0 H.
  - injection H as <-. simpl. lia.
  - rewrite collect_cons in H.
    destruct (sql2edgedata.locate lanes xformer row.1.1.2 row.1.2);
      [| discriminate].
    rewrite (IH _ H), edgedata_add_count. simpl. lia.
Qed.

Lemma collect_Raise (rows : list (Z * Q * Q * Q * Q))
    (e0 : list (option string * list Q)) (e : sql2edgedata.Exception) :
  sql2edgedata.collect lanes xformer rows e0 = sql2edgedata.Raise e ->
  exists row, row ∈ rows
    /\ sql2edgedata.locate lanes xformer row.1.1.2 row.1.2 = sql2edgedata.Raise e.
Proof.
  revert e0. induction rows as [| row rows IH]; intros e0 H; [discriminate |].
  rewrite collect_cons in H.
  destruct (sql2edgedata.locate lanes xformer row.1.1.2 row.1.2) as [k |]
    eqn:Hk.
  - destruct (IH _ H) as (row' & Hin & Hrow'). exists row'.
    split; [now apply list_elem_of_further | exact Hrow'].
  - injection H as <-. exists row. split; [apply list_elem_of_here | exact Hk].
Qed.

Lemma locate_Ok (posx posy : Q) (k : option string) :
  sql2edgedata.locate lanes xformer posx posy = sql2edgedata.Ok k ->
  exists lane, lane ∈ lanes /\ edge_id lane = k.
Proof.
  unfold sql2edgedata.locate.
  destruct (STRtree_nearest lanes _) as [nearest |] eqn:Hn; [| discriminate].
  destruct (distance_gt _ _); [discriminate |]. intros [= <-].
  exists nearest. split; [| reflexivity].
  now apply (STRtree_nearest_spec _ _ _ Hn).
Qed.

(** In the model, the lookup of a sample raises [ValueError] for a network
    with lanes only, and the exception of the empty tree for a network
    without lanes. *)
Lemma locate_Raise (posx posy : Q) (e : sql2edgedata.Exception) :
  sql2edgedata.locate lanes xformer posx posy = sql2edgedata.Raise e ->
  (e = sql2edgedata.KeyError /\ lanes = [])
  \/ (e = sql2edgedata.ValueError /\ lanes <> []).
Proof.
  unfold sql2edgedata.locate. destruct lanes as [| l ls]; simpl.
  - intros [= <-]. now left.
  - destruct (distance_gt _ _); [| discriminate]. intros [= <-]. now right.
Qed.

Lemma speeds_on_nonempty (rows : list (Z * Q * Q * Q * Q)) (k : option string) :
  sql2edgedata.speeds_on lanes xformer rows k <> [] ->
  exists lane, lane ∈ lanes /\ edge_id lane = k.
Proof.
  unfold sql2edgedata.speeds_on.
  destruct (omap _ rows) as [| s l] eqn:E; [easy |]. intros _.
  assert (s ∈ s :: l) as Hs by apply list_elem_of_here.
  rewrite <- E in Hs. apply list_elem_of_omap in Hs as (row & _ & Hrow).
  destruct (sql2edgedata.locate lanes xformer row.1.1.2 row.1.2) as [k' |]
    eqn:Hk; [| discriminate].
  case_decide; [subst | discriminate]. now apply (locate_Ok _ _ _ Hk).
Qed.

Lemma collect_edgedata (rows : list (Z * Q * Q * Q * Q))
    (edgedata : list (option string * list Q)) :
  sql2edgedata.collect lanes xformer rows [] = sql2edgedata.Ok edgedata ->
  NoDup edgedata.*1
  /\ (forall (k : option string) (speeds : list Q),
         (k, speeds) ∈ edgedata
         <-> speeds <> []
             /\ speeds = sql2edgedata.speeds_on lanes xformer rows k)
  /\ length (concat edgedata.*2) = length rows.
Proof.
  intros H.
  assert (NoDup edgedata.*1) as Hnd by (apply (collect_NoDup _ _ _ H); constructor).
  split; [exact Hnd |]. split; [| exact (collect_count _ _ _ H)].
  intros k speeds. rewrite (edgedata_get_elem_of _ _ _ Hnd), (collect_get _ _ _ k H).
  simpl. destruct (sql2edgedata.speeds_on lanes xformer rows k) as [| s l].
  - split; [discriminate | now intros [? ->]].
  - split; [intros [= <-]; split; [discriminate | reflexivity] |].
    now intros [_ ->].
Qed.

(** When the loop over the rows ends without an exception, [edgedata] has
    each edge once; the speeds of an edge are the speeds of the rows whose
    nearest lane is on this edge, in the order of the rows, and there is at
    least one; every row is counted once. *)
Theorem collect_spec (rows : list (Z * Q * Q * Q * Q))
    (edgedata : list (option string * list Q)) :
  sql2edgedata.collect lanes xformer rows [] = sql2edgedata.Ok edgedata ->
  NoDup edgedata.*1
  /\ (forall (k : option string) (speeds : list Q),
         (k, speeds) ∈ edgedata
         <-> speeds <> []
             /\ speeds = sql2edgedata.speeds_on lanes xformer rows k)
  /\ length (concat edgedata.*2) = length rows.
Proof. apply collect_edgedata. Qed.

End Edgedata.

(** ** The run of sql2edgedata.py *)

Lemma edge_element_Raise (edge2speed edge2len : gmap (option string) Q)
    (k : option string) (speeds : list Q) (s l : Q) (e : sql2edgedata.Exception) :
  speeds <> [] ->
  edge2speed !! k = Some s ->
  edge2len !! k = Some l ->
  sql2edgedata.edge_element edge2speed edge2len k speeds = sql2edgedata.Raise e ->
  e = sql2edgedata.ZeroDivisionError
  /\ (sql2edgedata.py_sum speeds == 0 \/ s == 0 \/ l == 0).
Proof.
  intros Hne Hs Hl.
  pose proof (py_len_nonzero speeds Hne) as Hlen.
  unfold sql2edgedata.edge_element, mbind, sql2edgedata.result_bind.
  rewrite (py_div_nonzero _ _ Hlen).
  destruct speeds as [| x v]; [congruence |].
  simpl sql2edgedata.py_min. simpl sql2edgedata.py_max. cbv iota beta.
  destruct (sql2edgedata.py_div 1 _) as [inverse |] eqn:Hinv.
  2: { apply py_div_Raise in Hinv as [Havg ->]. intros [= <-].
       split; [reflexivity |]. left. now apply (Qdiv_zero_iff _ _ Hlen). }
  apply py_div_Ok in Hinv as [Havg _].
  unfold sql2edgedata.dict_get. rewrite Hs, Hl.
  destruct (sql2edgedata.py_div l s) as [expected |] eqn:Hexp.
  2: { apply py_div_Raise in Hexp as [Hs0 ->]. intros [= <-]. auto. }
  apply py_div_Ok in Hexp as [Hs0 ->].
  rewrite (py_div_nonzero l _ Havg).
  destruct (sql2edgedata.py_div _ (l / s)) as [cidx |] eqn:Hcidx; [discriminate |].
  apply py_div_Raise in Hcidx as [Hls ->]. intros [= <-].
  split; [reflexivity |]. right. right. now apply (Qdiv_zero_iff l s Hs0).
Qed.

Lemma write_edges_spec (edge2speed edge2len : gmap (option string) Q)
    (edgedata : list (option string * list Q)) (written : list sql2edgedata.Line) :
  match sql2edgedata.write_edges edge2speed edge2len edgedata written with
  | (written', sql2edgedata.Ok _) =>
      exists els : list sql2edgedata.EdgeElement,
        written' = written ++ (sql2edgedata.edge <$> els)
        /\ Forall2 (fun kv el =>
                      sql2edgedata.edge_element edge2speed edge2len kv.1 kv.2
                      = sql2edgedata.Ok el) edgedata els
  | (written', sql2edgedata.Raise e) =>
      exists (els : list sql2edgedata.EdgeElement) (kv : option string * list Q),
        written' = written ++ (sql2edgedata.edge <$> els)
        /\ kv ∈ edgedata
        /\ sql2edgedata.edge_element edge2speed edge2len kv.1 kv.2
           = sql2edgedata.Raise e
  end.
Proof.
  revert written. induction edgedata as [| [k speeds] rest IH]; intros written.
  - simpl. exists []. split; [now rewrite app_nil_r | constructor].
  - simpl.
    destruct (sql2edgedata.edge_element edge2speed edge2len k speeds) as [el | e]
      eqn:Hel.
    + specialize (IH (written ++ [sql2edgedata.edge el])).
      destruct (sql2edgedata.write_edges _ _ rest _) as [written' [[] | e]].
      * destruct IH as (els & -> & Hels). exists (el :: els).
        split; [now rewrite <- app_assoc | now constructor].
      * destruct IH as (els & kv & -> & Hkv & Hraise). exists (el :: els), kv.
        split; [now rewrite <- app_assoc |].
        split; [now apply list_elem_of_further | exact Hraise].
    + exists [], (k, speeds).
      split; [now rewrite app_nil_r |].
      split; [apply list_elem_of_here | exact Hel].
Qed.

Lemma Forall2_edge_ids (edge2speed edge2len : gmap (option string) Q)
    (edgedata : list (option string * list Q)) (els : list sql2edgedata.EdgeElement) :
  Forall2 (fun kv el =>
             sql2edgedata.edge_element edge2speed edge2len kv.1 kv.2
             = sql2edgedata.Ok el) edgedata els ->
  sql2edgedata.attr_id <$> els = edgedata.*1.
Proof.
  induction 1 as [| kv el edgedata els Hel _ IH]; [reflexivity |].
  rewrite !fmap_cons, IH. f_equal.
  apply edge_element_inv in Hel as (x & v & s & l & _ & _ & _ & _ & _ & _ & ->).
  reflexivity.
Qed.

Lemma edgedata_main_cases (args : sql2edgedata.Args) (netfile : list Lane)
    (results : list Row) :
  let samples := sql2edgedata.main_samples args results in
  let speeds_on := sql2edgedata.speeds_on netfile (sql2edgedata.main_xformer args)
                     samples in
  match sql2edgedata.main args netfile results with
  | (written, sql2edgedata.Ok _) =>
      exists els : list sql2edgedata.EdgeElement,
        written
        = [sql2edgedata.meandata_open;
           sql2edgedata.interval_open (sql2edgedata.main_start_time args results)
                                      (sql2edgedata.main_end_time args results)]
            ++ (sql2edgedata.edge <$> els)
            ++ [sql2edgedata.interval_close; sql2edgedata.meandata_close]
        /\ NoDup (sql2edgedata.attr_id <$> els)
        /\ (forall k : option string,
               k ∈ sql2edgedata.attr_id <$> els <-> speeds_on k <> [])
        /\ Forall (fun el =>
                     sql2edgedata.edge_element
                       (sql2edgedata.group_by_avg netfile edge_id lane_speed)
                       (sql2edgedata.group_by_avg netfile edge_id lane_length)
                       (sql2edgedata.attr_id el)
                       (speeds_on (sql2edgedata.attr_id el))
                     = sql2edgedata.Ok el) els
  | (written, sql2edgedata.Raise e) =>
      sql2edgedata.explained args netfile results e
      /\ (e <> sql2edgedata.ZeroDivisionError -> written = [])
  end.
Proof.
  intros samples speeds_on. unfold sql2edgedata.main. cbv zeta. fold samples.
  destruct (sql2edgedata.collect netfile _ samples []) as [edgedata | e] eqn:Hc.
  - destruct (collect_edgedata _ _ _ _ Hc) as (Hnd & Hmem & _).
    pose proof (write_edges_spec
                  (sql2edgedata.group_by_avg netfile edge_id lane_speed)
                  (sql2edgedata.group_by_avg netfile edge_id lane_length)
                  edgedata
                  [sql2edgedata.meandata_open;
                   sql2edgedata.interval_open
                     (sql2edgedata.main_start_time args results)
                     (sql2edgedata.main_end_time args results)]) as Hw.
    destruct (sql2edgedata.write_edges _ _ edgedata _) as [written [[] | e]].
    + destruct Hw as (els & -> & Hels). exists els.
      pose proof (Forall2_edge_ids _ _ _ _ Hels) as Hids.
      split; [now rewrite <- app_assoc |]. rewrite Hids.
      split; [exact Hnd |]. split.
      * intros k. rewrite <- edgedata_get_is_Some. split.
        -- intros [v Hv]. apply (edgedata_get_elem_of _ _ _ Hnd) in Hv.
           apply Hmem in Hv as [Hne ->]. exact Hne.
        -- intros Hne. exists (speeds_on k).
           apply (edgedata_get_elem_of _ _ _ Hnd), Hmem. now split.
      * apply Forall_forall. intros el Hel.
        apply list_elem_of_lookup in Hel as [i Hi].
        destruct (Forall2_lookup_r _ _ _ _ _ Hels Hi) as ([k v] & Hkv & Hok).
        apply list_elem_of_lookup_2, Hmem in Hkv as [_ ->].
        pose proof Hok as (x & w & s & l & _ & _ & _ & _ & _ & _ & ->)%edge_element_inv.
        exact Hok.
    + destruct Hw as (els & [k v] & _ & Hkv & Hraise). simpl in Hraise.
      apply Hmem in Hkv as [Hne ->].
      destruct (speeds_on_nonempty _ _ _ _ Hne) as (lane & Hlane & Hk).
      destruct (proj2 (group_by_avg_is_Some edge_id lane_speed netfile k))
        as [s Hs]; [eauto |].
      destruct (proj2 (group_by_avg_is_Some edge_id lane_length netfile k))
        as [l Hl]; [eauto |].
      destruct (edge_element_Raise _ _ _ _ _ _ _ Hne Hs Hl Hraise) as [-> Hzero].
      split; [| congruence]. exists k, s, l. cbv zeta. auto.
  - destruct (collect_Raise _ _ _ _ _ Hc) as (row & Hrow & Hloc).
    split; [| reflexivity].
    assert (samples <> []) as Hsamples.
    { intros E. rewrite E in Hrow. now apply elem_of_nil in Hrow. }
    destruct (locate_Raise _ _ _ _ _ Hloc) as [[-> Hn] | [-> Hn]]; simpl.
    + split; [exact Hsamples |]. now left.
    + split; [exact Hsamples |]. right.
      split; [exact Hn |]. split; [reflexivity |]. exists row. auto.
Qed.

(** How a run of sql2edgedata.py ends and what it has written.  Without an
    exception: the opening lines, one element for each edge that has
    samples, made from the speeds of the samples on this edge, and the
    closing lines.  With [ZeroDivisionError]: for an edge with samples, the
    sum of the sampled speeds, the speed of the edge or the length of the
    edge is zero.  With any other exception nothing is written and there
    are samples, and either the network has no lane, or it has lanes, the
    exception is [ValueError] and a sample is farther than 0.1 from the
    nearest lane. *)
Theorem edgedata_main_outcome (args : sql2edgedata.Args) (netfile : list Lane)
    (results : list Row) :
  let samples := sql2edgedata.main_samples args results in
  let speeds_on := sql2edgedata.speeds_on netfile (sql2edgedata.main_xformer args)
                     samples in
  match sql2edgedata.main args netfile results with
  | (written, sql2edgedata.Ok _) =>
      exists els : list sql2edgedata.EdgeElement,
        written
        = [sql2edgedata.meandata_open;
           sql2edgedata.interval_open (sql2edgedata.main_start_time args results)
                                      (sql2edgedata.main_end_time args results)]
            ++ (sql2edgedata.edge <$> els)
            ++ [sql2edgedata.interval_close; sql2edgedata.meandata_close]
        /\ NoDup (sql2edgedata.attr_id <$> els)
        /\ (forall k : option string,
               k ∈ sql2edgedata.attr_id <$> els <-> speeds_on k <> [])
        /\ Forall (fun el =>
                     sql2edgedata.edge_element
                       (sql2edgedata.group_by_avg netfile edge_id lane_speed)
                       (sql2edgedata.group_by_avg netfile edge_id lane_length)
                       (sql2edgedata.attr_id el)
                       (speeds_on (sql2edgedata.attr_id el))
                     = sql2edgedata.Ok el) els
  | (written, sql2edgedata.Raise e) =>
      sql2edgedata.explained args netfile results e
      /\ (e <> sql2edgedata.ZeroDivisionError -> written = [])
  end.
Proof. apply edgedata_main_cases. Qed.

(** An edge on which every sample stands still stops the report: when all
    samples are within 0.1 of a lane and the speeds sampled on some edge
    sum to zero, the run ends with [ZeroDivisionError]. *)
Theorem edgedata_main_standstill (args : sql2edgedata.Args) (netfile : list Lane)
    (results : list Row) (k : option string) :
  let samples := sql2edgedata.main_samples args results in
  let speeds := sql2edgedata.speeds_on netfile (sql2edgedata.main_xformer args)
                  samples k in
  (forall row, row ∈ samples ->
     exists k', sql2edgedata.locate netfile (sql2edgedata.main_xformer args)
                  row.1.1.2 row.1.2 = sql2edgedata.Ok k') ->
  speeds <> [] ->
  sql2edgedata.py_sum speeds == 0 ->
  (sql2edgedata.main args netfile results).2
  = sql2edgedata.Raise sql2edgedata.ZeroDivisionError.
Proof.
  intros samples speeds Hloc Hne Hzero.
  pose proof (edgedata_main_cases args netfile results) as Hout.
  cbv zeta in Hout. fold samples in Hout.
  destruct (sql2edgedata.main args netfile results) as [written [[] | e]]; simpl.
  - exfalso. destruct Hout as (els & _ & _ & Hids & Hels).
    apply Hids in Hne. apply list_elem_of_fmap in Hne as (el & -> & Hel).
    rewrite Forall_forall in Hels. specialize (Hels el Hel).
    apply edge_element_inv in Hels as (x & v & s & l & _ & Havg & _).
    apply Havg. fold speeds. rewrite Hzero.
    unfold Qdiv. ring.
  - destruct Hout as [Hexp _].
    assert (samples <> []
            /\ (netfile = []
                \/ exists row, row ∈ samples
                     /\ sql2edgedata.locate netfile (sql2edgedata.main_xformer args)
                          row.1.1.2 row.1.2
                        = sql2edgedata.Raise sql2edgedata.ValueError)
            -> False) as Hno.
    { intros [Hs [-> | (row & Hrow & Hraise)]].
      - destruct samples as [| row rows]; [congruence |].
        destruct (Hloc row (list_elem_of_here _ _)) as [k' Hk'].
        discriminate Hk'.
      - destruct (Hloc row Hrow) as [k' Hk']. congruence. }
    destruct e; [| | reflexivity]; exfalso; apply Hno;
      destruct Hexp as [Hs [Hn | (_ & _ & Hrow)]]; auto.
Qed.

(** ** The rows of a run and its last instant *)

Lemma foldl_Qmax_opt_spec (l : list Q) (acc : option Q) :
  match foldl Qmax_opt acc l with
  | None => acc = None /\ l = []
  | Some m =>
      (forall x, x ∈ l -> x <= m)
      /\ (forall a, acc = Some a -> a <= m)
      /\ ((exists x, x ∈ l /\ m == x) \/ (exists a, acc = Some a /\ m == a))
  end.
Proof.
  revert acc. induction l as [| x l IH]; intros acc; simpl.
  - destruct acc as [a |]; [| auto].
    split; [now intros ? ?%elem_of_nil |].
    split; [intros ? [= <-]; apply Qle_refl |].
    right. exists a. split; [reflexivity | apply Qeq_refl].
  - specialize (IH (Qmax_opt acc x)).
    destruct (foldl Qmax_opt (Qmax_opt acc x) l) as [m |].
    + destruct IH as (Hl & Hacc & Hm).
      assert (x <= m) as Hx.
      { destruct acc as [a |]; simpl in Hacc.
        - eapply Qle_trans; [apply Q.le_max_r | now apply Hacc].
        - now apply Hacc. }
      split; [| split].
      * intros y [-> | Hy]%elem_of_cons; [exact Hx | now apply Hl].
      * intros a ->. simpl in Hacc.
        eapply Qle_trans; [apply Q.le_max_l | now apply Hacc].
      * destruct Hm as [(y & Hy & Hmy) | (b & Hb & Hmb)].
        -- left. exists y. split; [now apply list_elem_of_further | exact Hmy].
        -- destruct acc as [a |]; simpl in Hb; injection Hb as <-.
           ++ destruct (Q.max_dec a x) as [E | E]; rewrite E in Hmb.
              ** right. eauto.
              ** left. exists x. split; [apply list_elem_of_here | exact Hmb].
           ++ left. exists x. split; [apply list_elem_of_here | exact Hmb].
    + destruct IH as [Hacc _]. destruct acc; discriminate.
Qed.

(** [select max(seconds)] gives an instant of a row of the run that no row
    of the run exceeds, and nothing exactly when the run has no row. *)
Lemma select_max_seconds_spec (results : list Row) (run : Z) :
  match select_max_seconds results run with
  | None => forall r, r ∈ results -> run_id r <> run
  | Some m =>
      (exists r, r ∈ results /\ run_id r = run /\ m == seconds r)
      /\ forall r, r ∈ results -> run_id r = run -> seconds r <= m
  end.
Proof.
  unfold select_max_seconds.
  pose proof (foldl_Qmax_opt_spec
                (seconds <$> List.filter (fun r => (run_id r =? run)%Z) results)
                None) as H.
  destruct (foldl Qmax_opt None _) as [m |].
  - destruct H as (Hle & _ & [(x & Hx & Hm) | (a & [=] & _)]). split.
    + apply list_elem_of_fmap in Hx as (r & -> & Hr).
      apply list_elem_of_In, filter_In in Hr as [Hr Hrun].
      exists r. split; [now apply list_elem_of_In |].
      split; [now apply Z.eqb_eq | exact Hm].
    + intros r Hr Hrun. apply Hle, list_elem_of_fmap. exists r.
      split; [reflexivity |]. apply list_elem_of_In, filter_In.
      split; [now apply list_elem_of_In | now apply Z.eqb_eq].
  - destruct H as [_ Hnil]. intros r Hr Hrun.
    assert (seconds r ∈ seconds <$> List.filter (fun r => (run_id r =? run)%Z)
                                       results) as Hin.
    { apply list_elem_of_fmap. exists r. split; [reflexivity |].
      apply list_elem_of_In, filter_In.
      split; [now apply list_elem_of_In | now apply Z.eqb_eq]. }
    rewrite Hnil in Hin. now apply elem_of_nil in Hin.
Qed.

Lemma elem_of_insert_by_seconds (r x : Row) (rows : list Row) :
  x ∈ sql2edgedata.insert_by_seconds r rows <-> x = r \/ x ∈ rows.
Proof.
  induction rows as [| y rows IH]; simpl.
  - rewrite list_elem_of_singleton, elem_of_nil. tauto.
  - destruct (Qle_bool (seconds r) (seconds y)).
    + now rewrite elem_of_cons.
    + rewrite !elem_of_cons, IH. tauto.
Qed.

Lemma elem_of_order_by_seconds (x : Row) (rows : list Row) :
  x ∈ sql2edgedata.order_by_seconds rows <-> x ∈ rows.
Proof.
  unfold sql2edgedata.order_by_seconds.
  induction rows as [| r rows IH]; simpl; [tauto |].
  rewrite elem_of_insert_by_seconds, elem_of_cons, IH. tauto.
Qed.

Lemma elem_of_select_samples (results : list Row) (run : Z) (lo hi : Q)
    (sample : Z * Q * Q * Q * Q) :
  sample ∈ sql2edgedata.select_samples results run (Some lo) (Some hi)
  <-> exists r, r ∈ results /\ run_id r = run
                /\ lo <= seconds r /\ seconds r < hi
                /\ mobility_posx r = Some sample.1.1.2
                /\ mobility_posy r = Some sample.1.2
                /\ appl_speed r = Some sample.2
                /\ sample.1.1.1.1 = node_id r
                /\ sample.1.1.1.2 = seconds r.
Proof.
  unfold sql2edgedata.select_samples. rewrite list_elem_of_omap. split.
  - intros (r & Hr & Hsel). rewrite elem_of_order_by_seconds in Hr.
    destruct ((run_id r =? run)%Z) eqn:Hrun; [| discriminate].
    destruct (Qle_bool lo (seconds r)) eqn:Hlo; [| discriminate].
    destruct (Qltb (seconds r) hi) eqn:Hhi; [| discriminate].
    simpl in Hsel.
    destruct (mobility_posx r) as [x |] eqn:Hx; [| discriminate].
    destruct (mobility_posy r) as [y |] eqn:Hy; [| discriminate].
    destruct (appl_speed r) as [sp |] eqn:Hs; [| discriminate].
    injection Hsel as <-. exists r. simpl.
    apply Z.eqb_eq in Hrun. apply Qle_bool_iff in Hlo. apply Qltb_lt in Hhi.
    split; [exact Hr |]. split; [exact Hrun |]. split; [exact Hlo |].
    split; [exact Hhi |]. repeat split; assumption || reflexivity.
  - intros (r & Hr & Hrun & Hlo & Hhi & Hx & Hy & Hs & Hid & Ht).
    exists r. split; [now apply elem_of_order_by_seconds |].
    apply Z.eqb_eq in Hrun. apply Qle_bool_iff in Hlo. apply Qltb_lt in Hhi.
    rewrite Hrun, Hlo, Hhi, Hx, Hy, Hs. simpl.
    destruct sample as [[[[??]?]?]?]. simpl in *. congruence.
Qed.

(** With no end time given, sql2edgedata.py leaves the rows of the last
    instant of the run out: every sample it goes through is earlier than
    the latest row of the run. *)
Theorem edgedata_default_end (args : sql2edgedata.Args) (results : list Row)
    (sample : Z * Q * Q * Q * Q) :
  sql2edgedata.args_end_time args = None ->
  sample ∈ sql2edgedata.main_samples args results ->
  exists last : Row,
    last ∈ results
    /\ run_id last = sql2edgedata.args_run_id args
    /\ (forall r, r ∈ results -> run_id r = sql2edgedata.args_run_id args ->
                  seconds r <= seconds last)
    /\ sample.1.1.1.2 < seconds last.
Proof.
  intros Hend Hsample.
  unfold sql2edgedata.main_samples, sql2edgedata.main_end_time in Hsample.
  rewrite Hend in Hsample.
  pose proof (select_max_seconds_spec results (sql2edgedata.args_run_id args))
    as Hmax.
  destruct (select_max_seconds results (sql2edgedata.args_run_id args)) as [m |].
  2: { unfold sql2edgedata.select_samples in Hsample.
       destruct (sql2edgedata.main_start_time args results);
         now apply elem_of_nil in Hsample. }
  destruct (sql2edgedata.main_start_time args results) as [lo |];
    [| now apply elem_of_nil in Hsample].
  apply elem_of_select_samples in Hsample
    as (r & _ & _ & _ & Hlt & _ & _ & _ & _ & Ht).
  destruct Hmax as [(last & Hlast & Hrun & Hm) Hle].
  exists last. split; [exact Hlast |]. split; [exact Hrun |]. split.
  - intros r' Hr' Hrun'. rewrite <- Hm. now apply Hle.
  - rewrite Ht, <- Hm. exact Hlt.
Qed.

Lemma edgedata_default_end_witness :
  exists last : Row,
    last ∈ trace_results
    /\ run_id last = 0%Z
    /\ (forall r, r ∈ trace_results -> run_id r = 0%Z -> seconds r <= seconds last)
    /\ 1 < seconds last.
Proof.
  apply (edgedata_default_end (trace_edge_args None None) trace_results
           (1%Z, 1, 9, 0, 1)).
  - reflexivity.
  - apply list_elem_of_In. vm_compute. left. reflexivity.
Defined.

Lemma edgedata_main_standstill_witness :
  (sql2edgedata.main (trace_edge_args (Some 1) (Some 3)) [trace_lane]
                     queue_results).2
  = sql2edgedata.Raise sql2edgedata.ZeroDivisionError.
Proof.
  apply (edgedata_main_standstill (trace_edge_args (Some 1) (Some 3))
           [trace_lane] queue_results (Some "e"%string)).
  - intros row Hrow. apply list_elem_of_In in Hrow. vm_compute in Hrow.
    repeat (destruct Hrow as [<- | Hrow];
            [exists (Some "e"%string); vm_compute; reflexivity |]).
    contradiction.
  - vm_compute. discriminate.
  - vm_compute. reflexivity.
Defined.

(** On the trace, the four samples of run 0 between the instants 1 and 3
    all go to edge [e]. *)
Lemma collect_spec_witness :
  let rows := sql2edgedata.main_samples (trace_edge_args (Some 1) (Some 3))
                                        trace_results in
  let xformer := sql2edgedata.main_xformer (trace_edge_args (Some 1) (Some 3)) in
  let edgedata := [(Some "e"%string, [1; 2; 1; 2])] in
  NoDup edgedata.*1
  /\ (forall (k : option string) (speeds : list Q),
         (k, speeds) ∈ edgedata
         <-> speeds <> []
             /\ speeds = sql2edgedata.speeds_on [trace_lane] xformer rows k)
  /\ length (concat edgedata.*2) = length rows.
Proof.
  apply (collect_spec [trace_lane]
           (sql2edgedata.main_xformer (trace_edge_args (Some 1) (Some 3)))
           (sql2edgedata.main_samples (trace_edge_args (Some 1) (Some 3))
                                      trace_results)
           [(Some "e"%string, [1; 2; 1; 2])]).
  vm_compute. reflexivity.
Defined.
